(** * rcpsp.py: the instance reader and the CP model it posts

    A shallow embedding of [src/rcpsp.py].  The script reads a flat instance
    file, slices every task line into a duration, a demand vector and a
    successor list, posts precedence and capacity constraints on interval
    variables, an objective and (when the file carries a bound) an equality
    on the makespan, and calls the engine with two search limits.

    The engine (docplex / CP Optimizer) is not part of the repository: its
    modelling functions are embedded as the constructors of a syntax tree, and
    [Cpo.holds] gives the constraints their documented meaning. *)

From Stdlib Require Import ZArith Lia Ascii String DecimalString.
From Stdlib Require Import DecimalZ DecimalPos.
From stdpp Require Import base list list_numbers strings.

Local Open Scope Z_scope.
#[local] Set Warnings "-register-all".

(** ** Python values and builtins used by the script *)

Module Py.

(** The exceptions a run can end with.  [CpoException] is the engine's: it is
    what [mdl.add] raises when the generator it was handed fails.
    [CyclicPrecedenceError] is the error kind the specification names; no
    statement of the script raises it. *)
Inductive exn : Set :=
| IndexError
| ValueError
| CpoException
| CyclicPrecedenceError.

Inductive result (A : Type) : Type :=
| Ok (a : A)
| Raise (e : exn).
Global Arguments Ok {A} a.
Global Arguments Raise {A} e.

Global Instance result_ret : MRet result := fun A a => Ok a.
Global Instance result_bind : MBind result := fun A B f m =>
  match m with
  | Ok a => f a
  | Raise e => Raise e
  end.

Global Instance exn_eq_dec : EqDecision exn.
Proof. solve_decision. Defined.

(** [len(l)] *)
Definition len {A} (l : list A) : Z := Z.of_nat (length l).

(** [l[i]]: a negative index counts from the end, anything outside
    [-len(l) .. len(l)-1] raises [IndexError]. *)
Definition getitem {A} (l : list A) (i : Z) : result A :=
  let j := if i <? 0 then i + len l else i in
  if j <? 0 then Raise IndexError
  else match l !! Z.to_nat j with
       | Some x => Ok x
       | None => Raise IndexError
       end.

(** A slice bound: negative bounds count from the end, then the bound is
    clamped to [0 .. len(l)]. *)
Definition clamp (n i : Z) : Z :=
  let j := if i <? 0 then i + n else i in
  Z.max 0 (Z.min n j).

(** [l[lo:hi]] *)
Definition slice {A} (l : list A) (lo hi : Z) : list A :=
  let a := clamp (len l) lo in
  let b := clamp (len l) hi in
  take (Z.to_nat (b - a)) (drop (Z.to_nat a) l).

(** [l[lo:]] *)
Definition slice_from {A} (l : list A) (lo : Z) : list A :=
  drop (Z.to_nat (clamp (len l) lo)) l.

(** [range(n)]: empty when [n <= 0]. *)
Definition range (n : Z) : list Z := seqZ 0 n.

(** [str.isspace] on the ASCII characters: tab, line feed, vertical tab,
    form feed, carriage return, the four separators 0x1c-0x1f and space. *)
Definition isspace (c : ascii) : bool :=
  let n := nat_of_ascii c in
  ((9 <=? n)%nat && (n <=? 13)%nat) || ((28 <=? n)%nat && (n <=? 32)%nat).

(** [s.split()]: the maximal runs of non-space characters, in order. *)
Fixpoint split_from (word : option string) (s : string) : list string :=
  match s with
  | EmptyString => match word with Some w => [w] | None => [] end
  | String c rest =>
      if isspace c then
        match word with
        | Some w => w :: split_from None rest
        | None => split_from None rest
        end
      else
        split_from (Some (default EmptyString word +:+ String c EmptyString)) rest
  end.

Definition split (s : string) : list string := split_from None s.

Definition digit (c : ascii) : option Z :=
  let n := nat_of_ascii c in
  if ((48 <=? n)%nat && (n <=? 57)%nat) then Some (Z.of_nat n - 48) else None.

(** The digits of a decimal literal; a single underscore may stand between
    two digits.  [after_digit] tells whether the previous character was a
    digit. *)
Fixpoint digits (acc : Z) (after_digit : bool) (s : string) : result Z :=
  match s with
  | EmptyString => if after_digit then Ok acc else Raise ValueError
  | String c rest =>
      match digit c with
      | Some d => digits (10 * acc + d) true rest
      | None =>
          if Ascii.eqb c "_"%char && after_digit then digits acc false rest
          else Raise ValueError
      end
  end.

(** [int(s)] on a string without surrounding blanks (as [split] yields
    them): an optional sign and a decimal literal, [ValueError] otherwise.
    The model covers ASCII input. *)
Definition int (s : string) : result Z :=
  match s with
  | String "+"%char rest => digits 0 false rest
  | String "-"%char rest => z ← digits 0 false rest; Ok (- z)
  | _ => digits 0 false s
  end.

(** [file.readline()] on the text still to be read (text mode, universal
    newlines): the line up to and including its terminator, which is
    handed over as a line feed, and the text that remains.  At the end of
    the file the line is empty. *)
Fixpoint readline (s : string) : string * string :=
  match s with
  | EmptyString => (EmptyString, EmptyString)
  | String c rest =>
      if Ascii.eqb c "010"%char then (String "010"%char EmptyString, rest)
      else if Ascii.eqb c "013"%char then
        (String "010"%char EmptyString,
         match rest with
         | String "010"%char rest' => rest'
         | _ => rest
         end)
      else let '(l, r) := readline rest in (String c l, r)
  end.

(** ['{}'.format(k)] for an integer [k] *)
Definition str (k : Z) : string := NilZero.string_of_int (Z.to_int k).

End Py.

Import Py.

(** ** The modelling functions of the engine, as syntax with a meaning *)

Module Cpo.

(** [interval_var(name=..., size=...)]: a present interval of fixed size. *)
Record interval_var : Set := { name : string; size : Z }.

(** Integer expressions: [end_of(v)] and [max([...])]. *)
Inductive int_expr : Set :=
| end_of (v : interval_var)
| max (es : list int_expr).

(** Cumul function expressions: [pulse(v, h)] and [sum([...])]. *)
Inductive cumul_expr : Set :=
| pulse (v : interval_var) (h : Z)
| sum (fs : list cumul_expr).

(** What the script hands to [mdl.add]. *)
Inductive expr : Set :=
| end_before_start (a b : interval_var)
| le (f : cumul_expr) (cap : Z)          (* f <= cap *)
| minimize (e : int_expr)
| eq (e : int_expr) (c : Z).             (* e == c *)

(** [CpoModel()] followed by [mdl.add] calls: the expressions in the order
    they were added. *)
Definition model : Set := list expr.

(** A schedule gives every interval variable its start.  The variables'
    domains and the checks the engine makes of its arguments are left open:
    what is proved of every schedule that satisfies the posted constraints
    holds of those the engine can return. *)
Definition schedule : Set := interval_var -> Z.

Definition start_time (sigma : schedule) (v : interval_var) : Z := sigma v.
Definition end_time (sigma : schedule) (v : interval_var) : Z := sigma v + size v.

(** [v] is executing during the time unit [u]. *)
Definition active (sigma : schedule) (v : interval_var) (u : Z) : bool :=
  (start_time sigma v <=? u) && (u <? end_time sigma v).

(** The largest element of a list, undefined for the empty list. *)
Definition largest (zs : list Z) : option Z :=
  match zs with
  | [] => None
  | z :: zs' => Some (foldr Z.max z zs')
  end.

(** The value of an integer expression; the maximum of no expression is left
    undefined. *)
Fixpoint value (sigma : schedule) (e : int_expr) : option Z :=
  match e with
  | end_of v => Some (end_time sigma v)
  | max es => mapM (value sigma) es ≫= largest
  end.

(** The height of a cumul function at the time unit [u]: a pulse adds its
    height while its interval executes, a sum adds up its terms (nothing
    when there is none). *)
Fixpoint level (sigma : schedule) (f : cumul_expr) (u : Z) : Z :=
  match f with
  | pulse v h => if active sigma v u then h else 0
  | sum fs => foldr (fun g acc => level sigma g u + acc) 0 fs
  end.

(** The meaning of a posted expression for a schedule; the objective does
    not restrict the schedules. *)
Definition holds (sigma : schedule) (x : expr) : Prop :=
  match x with
  | end_before_start a b => end_time sigma a <= start_time sigma b
  | le f cap => forall u : Z, level sigma f u <= cap
  | minimize _ => True
  | eq e c => value sigma e = Some c
  end.

Definition admits (mdl : model) (sigma : schedule) : Prop :=
  Forall (holds sigma) mdl.

(** [mdl.add(<generator>)]: the engine runs the generator it is handed; an
    exception raised while the generator runs ends the call with a
    [CpoException]. *)
Definition add {A : Type} (generated : result A) : result A :=
  match generated with
  | Ok a => Ok a
  | Raise _ => Raise CpoException
  end.

(** The keyword arguments of [mdl.solve]; [None] is a limit that was not
    passed, which leaves the search unbounded in that respect. *)
Record solve_kwargs : Set := { FailLimit : option Z; TimeLimit : option Z }.

Definition unbounded (kw : solve_kwargs) : Prop :=
  FailLimit kw = None /\ TimeLimit kw = None.

End Cpo.

(** ** The script *)

(** The module-level variables after the file was read (lines 41-52). *)
Record instance : Set := {
  NB_TASKS : Z;
  NB_RESOURCES : Z;
  OPTIMAL_BOUND : option Z;
  CAPACITIES : list Z;
  TASKS : list (list Z)
}.

(** The lists extracted from [TASKS] (lines 59-65). *)
Record prepared : Set := {
  DURATIONS : list Z;
  DEMANDS : list (list Z);
  SUCCESSORS : list (list Z)
}.

(** [[int(v) for v in tokens]] *)
Definition ints (tokens : list string) : result (list Z) := mapM Py.int tokens.

(** [[[int(v) for v in file.readline().split()] for i in range(NB_TASKS)]],
    on the text still to be read. *)
Fixpoint read_tasks (rng : list Z) (file : string) : result (list (list Z)) :=
  match rng with
  | [] => Ok []
  | _ :: rng' =>
      let '(line, file') := Py.readline file in
      row ← ints (Py.split line);
      rows ← read_tasks rng' file';
      Ok (row :: rows)
  end.

(** Lines 41-52: the [with open(...)] block, on the text of the file. *)
Definition read (file : string) : result instance :=
  let '(line, file) := Py.readline file in
  let first_line := Py.split line in
  a ← getitem first_line 0;
  nb_tasks ← Py.int a;
  b ← getitem first_line 1;
  nb_resources ← Py.int b;
  optimal_bound ←
    (if 2 <? len first_line
     then c ← getitem first_line 2; z ← Py.int c; Ok (Some z)
     else Ok None);
  let '(line, file) := Py.readline file in
  capacities ← ints (Py.split line);
  tasks ← read_tasks (range nb_tasks) file;
  Ok {| NB_TASKS := nb_tasks; NB_RESOURCES := nb_resources;
        OPTIMAL_BOUND := optimal_bound; CAPACITIES := capacities;
        TASKS := tasks |}.

(** Lines 59-65. *)
Definition prepare (inst : instance) : result prepared :=
  durations ←
    mapM (fun t => row ← getitem (TASKS inst) t; getitem row 0)
         (range (NB_TASKS inst));
  demands ←
    mapM (fun t => row ← getitem (TASKS inst) t;
                   Ok (slice row 1 (NB_RESOURCES inst + 1)))
         (range (NB_TASKS inst));
  successors ←
    mapM (fun t => row ← getitem (TASKS inst) t;
                   Ok (slice_from row (NB_RESOURCES inst + 2)))
         (range (NB_TASKS inst));
  Ok {| DURATIONS := durations; DEMANDS := demands; SUCCESSORS := successors |}.

Section Build.

Variable inst : instance.
Variable prep : prepared.

(** Line 75: [tasks]. *)
Definition make_tasks : result (list Cpo.interval_var) :=
  mapM (fun i => d ← getitem (DURATIONS prep) i;
                 Ok {| Cpo.name := "T" +:+ Py.str (i + 1); Cpo.size := d |})
       (range (NB_TASKS inst)).

Variable tasks : list Cpo.interval_var.

(** Line 78: [mdl.add] of the generator of the precedence constraints. *)
Definition precedences : result (list Cpo.expr) :=
  Cpo.add
    (per_task ←
       mapM (fun t =>
               succ ← getitem (SUCCESSORS prep) t;
               mapM (fun s => a ← getitem tasks t;
                              b ← getitem tasks (s - 1);
                              Ok (Cpo.end_before_start a b))
                    succ)
            (range (NB_TASKS inst));
     Ok (concat per_task)).

(** Line 81: the pulses summed for resource [r], over the tasks [rng]. *)
Fixpoint pulses (r : Z) (rng : list Z) : result (list Cpo.cumul_expr) :=
  match rng with
  | [] => Ok []
  | t :: rng' =>
      row ← getitem (DEMANDS prep) t;
      d ← getitem row r;
      if 0 <? d then
        v ← getitem tasks t;
        row' ← getitem (DEMANDS prep) t;
        h ← getitem row' r;
        ps ← pulses r rng';
        Ok (Cpo.pulse v h :: ps)
      else pulses r rng'
  end.

(** Lines 81-82: [mdl.add] of the generator of the capacity constraints.  For
    a resource no task demands, Python compares the empty sum [0] with the
    capacity at once; [Cpo.le (Cpo.sum []) cap] has the meaning of that
    comparison. *)
Definition capacities : result (list Cpo.expr) :=
  Cpo.add
    (mapM (fun r => ps ← pulses r (range (NB_TASKS inst));
                    cap ← getitem (CAPACITIES inst) r;
                    Ok (Cpo.le (Cpo.sum ps) cap))
          (range (NB_RESOURCES inst))).

(** Line 85, for at least one task: the expression [max(end_of(t) for t in
    tasks)].  With no task the call raises [ValueError], see [build]. *)
Definition makespan : Cpo.int_expr := Cpo.max (map Cpo.end_of tasks).

(** Lines 88-92. *)
Definition objective : list Cpo.expr :=
  Cpo.minimize makespan ::
  match OPTIMAL_BOUND inst with
  | Some bound => [Cpo.eq makespan bound]
  | None => []
  end.

End Build.

(** Lines 72-92: the model as it stands when [mdl.solve] is called.  On line
    85 the maximum of no expression raises [ValueError].  The checks the
    engine makes of the arguments of [interval_var] (an assertion on sizes
    beyond its largest interval value) are not part of the embedding: where
    [build] returns a model the script built this model or stopped in such a
    check, and where [build] raises the script stopped. *)
Definition build (inst : instance) (prep : prepared) : result Cpo.model :=
  tasks ← make_tasks inst prep;
  prec ← precedences inst prep tasks;
  caps ← capacities inst prep tasks;
  match tasks with
  | [] => Raise ValueError
  | _ :: _ => Ok (prec ++ caps ++ objective inst tasks)
  end.

(** Line 104: [mdl.solve(FailLimit=1000000, TimeLimit=10)]. *)
Definition solve_call : Cpo.solve_kwargs :=
  {| Cpo.FailLimit := Some 1000000; Cpo.TimeLimit := Some 10 |}.

(** The script up to the call of the engine: the model handed over and the
    keyword arguments of the call, or the exception that ended the run. *)
Definition rcpsp (file : string) : result (Cpo.model * Cpo.solve_kwargs) :=
  inst ← read file;
  prep ← prepare inst;
  mdl ← build inst prep;
  Ok (mdl, solve_call).

(** ** Definitions used to state the properties *)

(** The [k]-th line of the file, as the [k+1]-th call of [readline] returns it. *)
Fixpoint line (k : nat) (file : string) : string :=
  match k with
  | O => fst (Py.readline file)
  | S k' => line k' (snd (Py.readline file))
  end.

(** What task [t] draws from resource [r] during the time unit [u]:
    [DEMANDS[t][r]] while [tasks[t]] executes, nothing otherwise. *)
Definition task_load (sigma : Cpo.schedule) (tasks : list Cpo.interval_var)
    (demands : list (list Z)) (r : nat) (u : Z) (t : nat) : Z :=
  match tasks !! t with
  | Some v =>
      if Cpo.active sigma v u then default 0 (demands !! t ≫= (.!! r)) else 0
  | None => 0
  end.

(** The demand on resource [r] of the tasks executing during the time unit [u],
    summed over all tasks. *)
Definition active_demand (sigma : Cpo.schedule) (tasks : list Cpo.interval_var)
    (demands : list (list Z)) (r : nat) (u : Z) : Z :=
  foldr (fun t acc => task_load sigma tasks demands r u t + acc) 0
        (seq 0 (length tasks)).

(** The load the pulses posted for resource [r] put on the time unit [u]: only
    positive demands were turned into pulses. *)
Definition pulse_load (sigma : Cpo.schedule) (tasks : list Cpo.interval_var)
    (demands : list (list Z)) (r : nat) (u : Z) (t : nat) : Z :=
  match tasks !! t with
  | Some v =>
      if Cpo.active sigma v u
      then Z.max 0 (default 0 (demands !! t ≫= (.!! r)))
      else 0
  | None => 0
  end.

(** [t'] is the task a successor identifier [s >= 1] listed for [t] names. *)
Definition edge (prep : prepared) (t t' : nat) : Prop :=
  exists succ s, SUCCESSORS prep !! t = Some succ /\ s ∈ succ /\
                 1 <= s /\ t' = Z.to_nat (s - 1).

(** [t :: path] is a walk along successor edges that ends in [last]. *)
Fixpoint walk (prep : prepared) (t : nat) (path : list nat) (last : nat) : Prop :=
  match path with
  | [] => t = last
  | t' :: path' => edge prep t t' /\ walk prep t' path' last
  end.


(** [DURATIONS[t]] *)
Definition duration (prep : prepared) (t : nat) : Z :=
  default 0 (DURATIONS prep !! t).

(** The total duration of the tasks the walk [t :: path] leaves: every task
    of the walk but the last. *)
Fixpoint walk_duration (prep : prepared) (t : nat) (path : list nat) : Z :=
  match path with
  | [] => 0
  | t' :: path' => duration prep t + walk_duration prep t' path'
  end.

(** Two task lines that agree everywhere but, possibly, at the position [k]. *)
Definition same_but_at (k : nat) (row row' : list Z) : Prop :=
  exists c, row' = <[k := c]> row.

(** ** Example files *)

Definition nl : string := String "010"%char EmptyString.

(** Four tasks, two resources, bound 7: T1 -> T2, T3 -> T4. *)
Definition small_file : string :=
  "4 2 7" +:+ nl +:+
  "3 2" +:+ nl +:+
  "0 0 0 2 2 3" +:+ nl +:+
  "3 2 1 1 4" +:+ nl +:+
  "4 2 0 1 4" +:+ nl +:+
  "0 0 0 0" +:+ nl.

(** The same file with wrong successor counts. *)
Definition small_file_counts : string :=
  "4 2 7" +:+ nl +:+
  "3 2" +:+ nl +:+
  "0 0 0 9 2 3" +:+ nl +:+
  "3 2 1 0 4" +:+ nl +:+
  "4 2 0 -5 4" +:+ nl +:+
  "0 0 0 0" +:+ nl.

(** Activity 1 -> activity 2 -> activity 1, durations 2 and 3. *)
Definition cyclic_file : string :=
  "2 1" +:+ nl +:+
  "1" +:+ nl +:+
  "2 1 1 2" +:+ nl +:+
  "3 1 1 1" +:+ nl.

(** The same cycle with durations 0. *)
Definition cyclic_file_zero : string :=
  "2 1" +:+ nl +:+
  "1" +:+ nl +:+
  "0 1 1 2" +:+ nl +:+
  "0 1 1 1" +:+ nl.

(** Two tasks announced; the second task line is missing. *)
Definition truncated_file : string :=
  "2 1" +:+ nl +:+
  "1" +:+ nl +:+
  "2 1 0" +:+ nl.

(** Task lines of 1, 2 and 3 values for two resources. *)
Definition short_lines_file : string :=
  "3 2" +:+ nl +:+
  "4 4" +:+ nl +:+
  "5" +:+ nl +:+
  "5 1" +:+ nl +:+
  "5 1 2" +:+ nl.

(** What the script computes from [small_file]. *)
Definition small_inst : instance :=
  {| NB_TASKS := 4; NB_RESOURCES := 2; OPTIMAL_BOUND := Some 7;
     CAPACITIES := [3; 2];
     TASKS := [[0; 0; 0; 2; 2; 3]; [3; 2; 1; 1; 4]; [4; 2; 0; 1; 4]; [0; 0; 0; 0]] |}.

Definition small_prep : prepared :=
  {| DURATIONS := [0; 3; 4; 0];
     DEMANDS := [[0; 0]; [2; 1]; [2; 0]; [0; 0]];
     SUCCESSORS := [[2; 3]; [4]; [4]; []] |}.

Definition T1 : Cpo.interval_var := {| Cpo.name := "T1"; Cpo.size := 0 |}.
Definition T2 : Cpo.interval_var := {| Cpo.name := "T2"; Cpo.size := 3 |}.
Definition T3 : Cpo.interval_var := {| Cpo.name := "T3"; Cpo.size := 4 |}.
Definition T4 : Cpo.interval_var := {| Cpo.name := "T4"; Cpo.size := 0 |}.

Definition small_tasks : list Cpo.interval_var := [T1; T2; T3; T4].

Definition small_model : Cpo.model :=
  [ Cpo.end_before_start T1 T2; Cpo.end_before_start T1 T3;
    Cpo.end_before_start T2 T4; Cpo.end_before_start T3 T4;
    Cpo.le (Cpo.sum [Cpo.pulse T2 2; Cpo.pulse T3 2]) 3;
    Cpo.le (Cpo.sum [Cpo.pulse T2 1]) 2;
    Cpo.minimize (makespan small_tasks);
    Cpo.eq (makespan small_tasks) 7 ].

(** T2 runs over [0,3), T3 over [3,7). *)
Definition small_schedule : Cpo.schedule := fun v =>
  if String.eqb (Cpo.name v) "T3" then 3
  else if String.eqb (Cpo.name v) "T4" then 7
  else 0.

(** What the script reads from [small_file_counts]. *)
Definition small_inst_counts : instance :=
  {| NB_TASKS := 4; NB_RESOURCES := 2; OPTIMAL_BOUND := Some 7;
     CAPACITIES := [3; 2];
     TASKS := [[0; 0; 0; 9; 2; 3]; [3; 2; 1; 0; 4]; [4; 2; 0; -5; 4]; [0; 0; 0; 0]] |}.




(** What the script reads from [truncated_file]. *)
Definition truncated_inst : instance :=
  {| NB_TASKS := 2; NB_RESOURCES := 1; OPTIMAL_BOUND := None;
     CAPACITIES := [1]; TASKS := [[2; 1; 0]; []] |}.

(** What the script reads from [short_lines_file]. *)
Definition short_lines_inst : instance :=
  {| NB_TASKS := 3; NB_RESOURCES := 2; OPTIMAL_BOUND := None;
     CAPACITIES := [4; 4]; TASKS := [[5]; [5; 1]; [5; 1; 2]] |}.

(** ** Definitions used to state further properties *)

(** The number of successor identifiers listed for the first [NB_TASKS]
    tasks. *)
Definition listed_successors (inst : instance) (prep : prepared) : nat :=
  foldr (fun succ acc => (length succ + acc)%nat) 0%nat
        (take (Z.to_nat (NB_TASKS inst)) (SUCCESSORS prep)).

(** What the model builder needs of its input: for every task below
    [NB_TASKS] a duration, successor identifiers within reach of [tasks[s-1]]
    and a demand for every resource, and a capacity for every resource. *)
Definition well_formed (inst : instance) (prep : prepared) : Prop :=
  (forall t : nat, Z.of_nat t < NB_TASKS inst ->
     is_Some (DURATIONS prep !! t) /\
     (exists succ, SUCCESSORS prep !! t = Some succ /\
                   forall s, s ∈ succ -> 1 - NB_TASKS inst <= s <= NB_TASKS inst) /\
     (forall r : nat, Z.of_nat r < NB_RESOURCES inst ->
        exists row d, DEMANDS prep !! t = Some row /\ row !! r = Some d)) /\
  (forall r : nat, Z.of_nat r < NB_RESOURCES inst -> is_Some (CAPACITIES inst !! r)).

(** One activity of duration 5 that demands 4 of a capacity of 3. *)
Definition overloaded_file : string :=
  "1 1" +:+ nl +:+
  "3" +:+ nl +:+
  "5 4 0" +:+ nl.

Definition overloaded_inst : instance :=
  {| NB_TASKS := 1; NB_RESOURCES := 1; OPTIMAL_BOUND := None;
     CAPACITIES := [3]; TASKS := [[5; 4; 0]] |}.

Definition overloaded_prep : prepared :=
  {| DURATIONS := [5]; DEMANDS := [[4]]; SUCCESSORS := [[]] |}.

Definition overloaded_model : Cpo.model :=
  let T := {| Cpo.name := "T1"; Cpo.size := 5 |} in
  [ Cpo.le (Cpo.sum [Cpo.pulse T 4]) 3; Cpo.minimize (makespan [T]) ].

Global Instance interval_var_eq_dec : EqDecision Cpo.interval_var.
Proof. solve_decision. Defined.

(** The time the first [i] tasks take when they run one after another. *)
Definition elapsed (tasks : list Cpo.interval_var) (i : nat) : Z :=
  foldr Z.add 0 (Cpo.size <$> take i tasks).

(** The schedule that runs the tasks one after another in task order. *)
Definition serial (tasks : list Cpo.interval_var) : Cpo.schedule := fun v =>
  match list_find (fun w => w = v) tasks with
  | Some (i, _) => elapsed tasks i
  | None => 0
  end.

(** [small_file] without its bound. *)
Definition unbound_inst : instance :=
  {| NB_TASKS := 4; NB_RESOURCES := 2; OPTIMAL_BOUND := None;
     CAPACITIES := [3; 2];
     TASKS := [[0; 0; 0; 2; 2; 3]; [3; 2; 1; 1; 4]; [4; 2; 0; 1; 4]; [0; 0; 0; 0]] |}.

Definition unbound_model : Cpo.model :=
  [ Cpo.end_before_start T1 T2; Cpo.end_before_start T1 T3;
    Cpo.end_before_start T2 T4; Cpo.end_before_start T3 T4;
    Cpo.le (Cpo.sum [Cpo.pulse T2 2; Cpo.pulse T3 2]) 3;
    Cpo.le (Cpo.sum [Cpo.pulse T2 1]) 2;
    Cpo.minimize (makespan small_tasks) ].

(** The text with every line feed preceded by a carriage return, as an editor
    that ends lines with both writes it. *)
Fixpoint crlf (s : string) : string :=
  match s with
  | EmptyString => EmptyString
  | String c rest =>
      if Ascii.eqb c "010"%char
      then String "013"%char (String "010"%char (crlf rest))
      else String c (crlf rest)
  end.

(** The text holds no carriage return. *)
Fixpoint no_cr (s : string) : bool :=
  match s with
  | EmptyString => true
  | String c rest => negb (Ascii.eqb c "013"%char) && no_cr rest
  end.

(** ** The error monad *)

Lemma bind_Ok {A B} (m : result A) (f : A -> result B) (b : B) :
  m ≫= f = Ok b <-> exists a, m = Ok a /\ f a = Ok b.
Proof.
  destruct m as [a|e]; simpl; split.
  - intros H. exists a. done.
  - intros (a' & [= <-] & H). done.
  - discriminate.
  - intros (a' & H & _). discriminate.
Qed.

Lemma bind_Raise {A B} (m : result A) (f : A -> result B) (e : exn) :
  m ≫= f = Raise e <-> m = Raise e \/ exists a, m = Ok a /\ f a = Raise e.
Proof.
  destruct m as [a|e']; simpl; split.
  - intros H. right. exists a. done.
  - intros [H | (a' & [= <-] & H)]; done.
  - intros [= ->]. by left.
  - intros [[= ->] | (a' & H & _)]; done.
Qed.

Lemma add_Ok {A} (generated : result A) (a : A) :
  Cpo.add generated = Ok a -> generated = Ok a.
Proof. destruct generated; simpl; congruence. Qed.

(** Takes apart every hypothesis that says a sequence of steps returned. *)
Ltac inv_Ok :=
  repeat match goal with
    | H : _ ≫= _ = Ok _ |- _ =>
        let a := fresh "x" in
        let Ha := fresh "E" in
        apply bind_Ok in H; destruct H as (a & Ha & H)
    | H : Ok _ = Ok _ |- _ => injection H as H
    | H : Raise _ = Ok _ |- _ => discriminate H
    | H : mret _ = Ok _ |- _ => injection H as H
    end.

Lemma mapM_Ok {A B} (f : A -> result B) (l : list A) (k : list B) :
  mapM f l = Ok k <-> Forall2 (fun x y => f x = Ok y) l k.
Proof.
  revert k. induction l as [|x l IH]; intros k; simpl.
  - split.
    + intros [= <-]. constructor.
    + intros H. by inversion H.
  - split.
    + intros H. inv_Ok. subst k. constructor; [done|]. by apply IH.
    + intros H. inversion H as [|? y ? k' Hy Hk]; subst.
      rewrite Hy. simpl. apply IH in Hk. rewrite Hk. done.
Qed.

Lemma mapM_Ok_length {A B} (f : A -> result B) l k :
  mapM f l = Ok k -> length k = length l.
Proof. intros H%mapM_Ok. symmetry. by eapply Forall2_length. Qed.

Lemma mapM_Ok_lookup {A B} (f : A -> result B) l k i x :
  mapM f l = Ok k -> l !! i = Some x -> exists y, k !! i = Some y /\ f x = Ok y.
Proof.
  intros H%mapM_Ok Hx.
  destruct (Forall2_lookup_l _ _ _ _ _ H Hx) as (y & Hy & Hf). eauto.
Qed.

Lemma mapM_Ok_lookup_r {A B} (f : A -> result B) l k i y :
  mapM f l = Ok k -> k !! i = Some y -> exists x, l !! i = Some x /\ f x = Ok y.
Proof.
  intros H%mapM_Ok Hy.
  destruct (Forall2_lookup_r _ _ _ _ _ H Hy) as (x & Hx & Hf). eauto.
Qed.

Lemma mapM_total {A B} (f : A -> result B) (l : list A) :
  (forall x, x ∈ l -> exists y, f x = Ok y) -> exists k, mapM f l = Ok k.
Proof.
  induction l as [|x l IH]; intros H; simpl.
  - by eexists.
  - destruct (H x) as [y Hy]; [left|].
    destruct IH as [k Hk]; [intros; apply H; by right|].
    exists (y :: k). rewrite Hy. simpl. by rewrite Hk.
Qed.

Lemma mapM_ext_in {A B} (f g : A -> result B) (l : list A) :
  (forall x, x ∈ l -> f x = g x) -> mapM f l = mapM g l.
Proof.
  induction l as [|x l IH]; intros H; simpl; [done|].
  rewrite (H x) by left. rewrite IH; [done|]. intros; apply H; by right.
Qed.

(** ** Indexing, slices and ranges *)

Lemma getitem_nat {A} (l : list A) (i : nat) :
  getitem l (Z.of_nat i) = match l !! i with Some x => Ok x | None => Raise IndexError end.
Proof.
  unfold getitem.
  destruct (Z.ltb_spec (Z.of_nat i) 0); [lia|].
  destruct (Z.ltb_spec (Z.of_nat i) 0); [lia|].
  by rewrite Nat2Z.id.
Qed.

Lemma getitem_Ok_nonneg {A} (l : list A) (i : Z) (x : A) :
  0 <= i -> getitem l i = Ok x <-> l !! Z.to_nat i = Some x.
Proof.
  intros Hi. rewrite <- (Z2Nat.id i) at 1 by done. rewrite getitem_nat.
  destruct (l !! Z.to_nat i); split; congruence.
Qed.

Lemma getitem_Ok_lookup {A} (l : list A) (i : Z) (x : A) :
  getitem l i = Ok x -> exists j : nat, l !! j = Some x.
Proof.
  unfold getitem. destruct (_ <? 0); [discriminate|].
  destruct (l !! _) eqn:E; [|discriminate]. intros [= <-]. eauto.
Qed.

Lemma getitem_exn {A} (l : list A) (i : Z) (e : exn) :
  getitem l i = Raise e -> e = IndexError.
Proof.
  unfold getitem. destruct (_ <? 0); [congruence|].
  destruct (l !! _); congruence.
Qed.

Lemma slice_nonneg {A} (l : list A) (lo hi : Z) :
  0 <= lo <= hi ->
  slice l lo hi = take (Z.to_nat (hi - lo)) (drop (Z.to_nat lo) l).
Proof.
  intros H. unfold slice, clamp, len.
  destruct (Z.ltb_spec lo 0); [lia|]. destruct (Z.ltb_spec hi 0); [lia|].
  destruct (Z_le_gt_dec (Z.of_nat (length l)) lo).
  - rewrite !drop_ge by lia. by rewrite !take_nil.
  - replace (Z.to_nat (Z.max 0 (Z.min _ lo))) with (Z.to_nat lo) by lia.
    destruct (Z_le_gt_dec (Z.of_nat (length l)) hi).
    + rewrite !take_ge; [done| |]; rewrite length_drop; lia.
    + f_equal. lia.
Qed.

Lemma slice_from_nonneg {A} (l : list A) (lo : Z) :
  0 <= lo -> slice_from l lo = drop (Z.to_nat lo) l.
Proof.
  intros H. unfold slice_from, clamp, len.
  destruct (Z.ltb_spec lo 0); [lia|].
  destruct (Z_le_gt_dec (Z.of_nat (length l)) lo).
  - rewrite !drop_ge; [done| |]; lia.
  - f_equal. lia.
Qed.

Lemma range_length (n : Z) : length (range n) = Z.to_nat n.
Proof. apply length_seqZ. Qed.

Lemma range_lookup (n : Z) (t : nat) :
  Z.of_nat t < n -> range n !! t = Some (Z.of_nat t).
Proof. intros H. unfold range. rewrite lookup_seqZ_lt by lia. f_equal; lia. Qed.

Lemma range_elem (n x : Z) : x ∈ range n <-> 0 <= x < n.
Proof. unfold range. rewrite elem_of_seqZ. lia. Qed.

(** ** What the reader and the extraction return *)

Lemma read_tasks_Ok (rng : list Z) (file : string) (rows : list (list Z)) :
  read_tasks rng file = Ok rows ->
  length rows = length rng /\
  forall t : nat, (t < length rng)%nat ->
    exists row, rows !! t = Some row /\ ints (Py.split (line t file)) = Ok row.
Proof.
  revert file rows. induction rng as [|i rng IH]; intros file rows; simpl.
  - intros [= <-]. split; [done|]. intros t Ht. lia.
  - destruct (Py.readline file) as [l file'] eqn:Hl. intros H. inv_Ok. subst rows.
    destruct (IH _ _ E0) as [Hlen Hrows]. split; [simpl; lia|].
    intros [|t] Ht; simpl; rewrite Hl; simpl.
    + eauto.
    + apply Hrows. lia.
Qed.

Lemma read_tasks_total (rng : list Z) (file : string) :
  (forall t : nat, (t < length rng)%nat ->
     exists row, ints (Py.split (line t file)) = Ok row) ->
  exists rows, read_tasks rng file = Ok rows.
Proof.
  revert file. induction rng as [|i rng IH]; intros file H; simpl; [by eexists|].
  destruct (H O) as [row Hrow]; [simpl; lia|]. simpl in Hrow.
  destruct (Py.readline file) as [l file'] eqn:Hl. simpl in Hrow.
  destruct (IH file') as [rows Hrows].
  { intros t Ht. specialize (H (S t)). simpl in H. rewrite Hl in H. apply H. lia. }
  exists (row :: rows). rewrite Hrow. simpl. by rewrite Hrows.
Qed.

Lemma read_Ok (file : string) (inst : instance) :
  read file = Ok inst ->
  (exists a b, Py.split (line 0 file) !! 0%nat = Some a /\
               Py.int a = Ok (NB_TASKS inst) /\
               Py.split (line 0 file) !! 1%nat = Some b /\
               Py.int b = Ok (NB_RESOURCES inst)) /\
  match Py.split (line 0 file) !! 2%nat with
  | Some c => exists z, Py.int c = Ok z /\ OPTIMAL_BOUND inst = Some z
  | None => OPTIMAL_BOUND inst = None
  end /\
  ints (Py.split (line 1 file)) = Ok (CAPACITIES inst) /\
  length (TASKS inst) = Z.to_nat (NB_TASKS inst) /\
  forall t : nat, Z.of_nat t < NB_TASKS inst ->
    exists row, TASKS inst !! t = Some row /\
                ints (Py.split (line (2 + t) file)) = Ok row.
Proof.
  unfold read. simpl.
  destruct (Py.readline file) as [l1 file1] eqn:H1. simpl.
  destruct (Py.readline file1) as [l2 file2] eqn:H2. simpl.
  intros H. inv_Ok. subst inst. simpl.
  apply (getitem_Ok_nonneg _ 0) in E; [|lia].
  apply (getitem_Ok_nonneg _ 1) in E1; [|lia].
  apply read_tasks_Ok in E5 as [Hlen Hrows]. rewrite range_length in Hlen, Hrows.
  repeat split.
  - eauto 10.
  - unfold len in E3. destruct (Z.ltb_spec 2 (Z.of_nat (length (Py.split l1)))).
    + inv_Ok.
      match goal with
      | G : getitem _ 2 = Ok _ |- _ =>
          apply (getitem_Ok_nonneg _ 2) in G; [|lia];
          change (Z.to_nat 2) with 2%nat in G; rewrite G
      end.
      subst. eauto.
    + inv_Ok. subst. rewrite lookup_ge_None_2; [done|lia].
  - done.
  - done.
  - intros t Ht. apply Hrows. lia.
Qed.

Lemma read_total (file : string) (a b : string) (n m : Z) :
  Py.split (line 0 file) !! 0%nat = Some a -> Py.int a = Ok n ->
  Py.split (line 0 file) !! 1%nat = Some b -> Py.int b = Ok m ->
  (forall c, Py.split (line 0 file) !! 2%nat = Some c -> exists z, Py.int c = Ok z) ->
  (exists caps, ints (Py.split (line 1 file)) = Ok caps) ->
  (forall t : nat, Z.of_nat t < n ->
     exists row, ints (Py.split (line (2 + t) file)) = Ok row) ->
  exists inst, read file = Ok inst /\ NB_TASKS inst = n /\ NB_RESOURCES inst = m.
Proof.
  unfold read. simpl.
  destruct (Py.readline file) as [l1 file1]. simpl.
  destruct (Py.readline file1) as [l2 file2]. simpl.
  intros Ha Hn Hb Hm Hbound [caps Hcaps] Hrows.
  rewrite (proj2 (getitem_Ok_nonneg _ 0 a ltac:(lia)) Ha). simpl. rewrite Hn. simpl.
  rewrite (proj2 (getitem_Ok_nonneg _ 1 b ltac:(lia)) Hb). simpl. rewrite Hm. simpl.
  destruct (read_tasks_total (range n) file2) as [rows Hrows'].
  { intros t Ht. rewrite range_length in Ht. apply Hrows. lia. }
  unfold len. destruct (Z.ltb_spec 2 (Z.of_nat (length (Py.split l1)))) as [Hlen|Hlen].
  - destruct (lookup_lt_is_Some_2 (Py.split l1) 2 ltac:(lia)) as [c Hc].
    destruct (Hbound c Hc) as [z Hz].
    rewrite (proj2 (getitem_Ok_nonneg _ 2 c ltac:(lia)) Hc). simpl. rewrite Hz. simpl.
    rewrite Hcaps. simpl. rewrite Hrows'. simpl. eauto.
  - simpl. rewrite Hcaps. simpl. rewrite Hrows'. simpl. eauto.
Qed.

Lemma prepare_Ok (inst : instance) (prep : prepared) :
  prepare inst = Ok prep ->
  length (DURATIONS prep) = Z.to_nat (NB_TASKS inst) /\
  length (DEMANDS prep) = Z.to_nat (NB_TASKS inst) /\
  length (SUCCESSORS prep) = Z.to_nat (NB_TASKS inst) /\
  forall t : nat, Z.of_nat t < NB_TASKS inst ->
    exists row d,
      TASKS inst !! t = Some row /\ row !! 0%nat = Some d /\
      DURATIONS prep !! t = Some d /\
      DEMANDS prep !! t = Some (slice row 1 (NB_RESOURCES inst + 1)) /\
      SUCCESSORS prep !! t = Some (slice_from row (NB_RESOURCES inst + 2)).
Proof.
  unfold prepare. intros H. inv_Ok. subst prep. simpl.
  pose proof (mapM_Ok_length _ _ _ E) as L1.
  pose proof (mapM_Ok_length _ _ _ E0) as L2.
  pose proof (mapM_Ok_length _ _ _ E1) as L3.
  rewrite range_length in L1, L2, L3. repeat split; try done.
  intros t Ht. pose proof (range_lookup _ _ Ht) as Hr.
  destruct (mapM_Ok_lookup _ _ _ _ _ E Hr) as (d & Hd & Fd).
  destruct (mapM_Ok_lookup _ _ _ _ _ E0 Hr) as (dem & Hdem & Fdem).
  destruct (mapM_Ok_lookup _ _ _ _ _ E1 Hr) as (suc & Hsuc & Fsuc).
  inv_Ok. rewrite getitem_nat in E2, E3, E4.
  destruct (TASKS inst !! t) as [row|]; [|discriminate]. inv_Ok. subst.
  apply (getitem_Ok_nonneg _ 0) in Fd; [|lia].
  exists x2, d. done.
Qed.

Lemma prepare_total (inst : instance) :
  (forall t : nat, Z.of_nat t < NB_TASKS inst ->
     exists row, TASKS inst !! t = Some row /\ row <> []) ->
  exists prep, prepare inst = Ok prep.
Proof.
  intros H. unfold prepare.
  assert (Hrow : forall x, x ∈ range (NB_TASKS inst) ->
            exists row, getitem (TASKS inst) x = Ok row /\ row <> []).
  { intros x Hx%range_elem. destruct (H (Z.to_nat x)) as (row & Hrow & Hne); [lia|].
    exists row. split; [|done]. by apply getitem_Ok_nonneg; [lia|]. }
  edestruct (mapM_total (fun t => row ← getitem (TASKS inst) t; getitem row 0))
    as [ds ->].
  { intros x Hx. destruct (Hrow x Hx) as (row & -> & Hne). simpl.
    destruct row as [|d row]; [done|]. by exists d. }
  edestruct (mapM_total (fun t => row ← getitem (TASKS inst) t;
                                  Ok (slice row 1 (NB_RESOURCES inst + 1))))
    as [dems ->].
  { intros x Hx. destruct (Hrow x Hx) as (row & -> & Hne). simpl. eauto. }
  edestruct (mapM_total (fun t => row ← getitem (TASKS inst) t;
                                  Ok (slice_from row (NB_RESOURCES inst + 2))))
    as [sucs ->].
  { intros x Hx. destruct (Hrow x Hx) as (row & -> & Hne). simpl. eauto. }
  simpl. eauto.
Qed.

(** ** What the model builder returns *)

Lemma make_tasks_Ok (inst : instance) (prep : prepared) (tasks : list Cpo.interval_var) :
  make_tasks inst prep = Ok tasks ->
  length tasks = Z.to_nat (NB_TASKS inst) /\
  forall (t : nat) (v : Cpo.interval_var), tasks !! t = Some v ->
    DURATIONS prep !! t = Some (Cpo.size v) /\
    Cpo.name v = "T" +:+ Py.str (Z.of_nat t + 1).
Proof.
  unfold make_tasks. intros H.
  pose proof (mapM_Ok_length _ _ _ H) as L. rewrite range_length in L.
  split; [done|]. intros t v Hv.
  destruct (mapM_Ok_lookup_r _ _ _ _ _ H Hv) as (i & Hi & Hf).
  assert (Ht : (t < Z.to_nat (NB_TASKS inst))%nat).
  { rewrite <- L. by eapply lookup_lt_Some. }
  rewrite range_lookup in Hi by lia. injection Hi as <-.
  inv_Ok. subst v. simpl. rewrite getitem_nat in E.
  destruct (DURATIONS prep !! t); [|discriminate]. by inv_Ok; subst.
Qed.

Lemma build_Ok (inst : instance) (prep : prepared) (mdl : Cpo.model) :
  build inst prep = Ok mdl ->
  exists tasks prec caps,
    make_tasks inst prep = Ok tasks /\
    precedences inst prep tasks = Ok prec /\
    capacities inst prep tasks = Ok caps /\
    mdl = prec ++ caps ++ objective inst tasks.
Proof.
  unfold build. intros H. inv_Ok.
  match goal with
  | G : match ?l with [] => _ | _ :: _ => _ end = Ok _ |- _ =>
      destruct l; [discriminate G|injection G as G]
  end.
  eauto 10.
Qed.

Lemma precedences_Ok inst prep tasks prec :
  precedences inst prep tasks = Ok prec ->
  Forall (fun c => exists a b, c = Cpo.end_before_start a b) prec /\
  forall (t : nat) succ s,
    Z.of_nat t < NB_TASKS inst ->
    SUCCESSORS prep !! t = Some succ -> s ∈ succ ->
    exists a b, tasks !! t = Some a /\ getitem tasks (s - 1) = Ok b /\
                Cpo.end_before_start a b ∈ prec.
Proof.
  unfold precedences. intros H. apply add_Ok in H. inv_Ok. subst prec.
  rename x into per_task, E into Hper. split.
  - apply Forall_forall. intros c Hc.
    apply list_elem_of_In, in_concat in Hc as (cs & Hcs & Hc).
    apply list_elem_of_In, list_elem_of_lookup in Hcs as (i & Hi).
    destruct (mapM_Ok_lookup_r _ _ _ _ _ Hper Hi) as (t & _ & Hf). inv_Ok.
    apply list_elem_of_In, list_elem_of_lookup in Hc as (j & Hj).
    destruct (mapM_Ok_lookup_r _ _ _ _ _ Hf Hj) as (s & _ & Hg). inv_Ok.
    subst c. eauto.
  - intros t succ s Ht Hsucc Hs.
    destruct (mapM_Ok_lookup _ _ _ _ _ Hper (range_lookup _ _ Ht))
      as (cs & Hcs & Hf).
    inv_Ok. rewrite getitem_nat, Hsucc in E. inv_Ok. subst x.
    apply list_elem_of_lookup in Hs as (j & Hj).
    destruct (mapM_Ok_lookup _ _ _ _ _ Hf Hj) as (c & Hc & Hg). inv_Ok.
    rewrite getitem_nat in E. destruct (tasks !! t) as [a|]; [|discriminate].
    inv_Ok. subst. exists x, x0. repeat split; [done|].
    apply list_elem_of_In, in_concat. exists cs.
    split; apply list_elem_of_In, list_elem_of_lookup; eauto.
Qed.

Lemma pulses_level sigma prep tasks (r : nat) rng ps u :
  pulses prep tasks (Z.of_nat r) (Z.of_nat <$> rng) = Ok ps ->
  Cpo.level sigma (Cpo.sum ps) u =
  foldr (fun t acc => pulse_load sigma tasks (DEMANDS prep) r u t + acc) 0 rng.
Proof.
  revert ps. induction rng as [|t rng IH]; intros ps; simpl.
  - by intros [= <-].
  - rewrite !getitem_nat. unfold pulse_load at 1.
    destruct (DEMANDS prep !! t) as [row|] eqn:Hrow; simpl; [|discriminate].
    rewrite !getitem_nat.
    destruct (row !! r) as [d|] eqn:Hd; simpl; [|discriminate].
    destruct (Z.ltb_spec 0 d).
    + destruct (tasks !! t) as [v|]; simpl; [|discriminate].
      intros H'. inv_Ok. subst ps. simpl.
      erewrite <- IH by eassumption. simpl.
      destruct (Cpo.active _ _ _); lia.
    + intros H'. rewrite <- (IH ps H'). simpl. destruct (tasks !! t); [|lia].
      destruct (Cpo.active _ _ _); lia.
Qed.

Lemma range_fmap (n : Z) : range n = Z.of_nat <$> seq 0 (Z.to_nat n).
Proof.
  unfold range, seqZ. apply list_fmap_ext. intros i x _. lia.
Qed.

Lemma foldr_add_le {A} (f g : A -> Z) (l : list A) :
  (forall x, x ∈ l -> f x <= g x) ->
  foldr (fun x acc => f x + acc) 0 l <= foldr (fun x acc => g x + acc) 0 l.
Proof.
  induction l as [|x l IH]; intros H; simpl; [lia|].
  pose proof (H x ltac:(left)). 
  assert (foldr (fun x acc => f x + acc) 0 l <= foldr (fun x acc => g x + acc) 0 l).
  { apply IH. intros; apply H; by right. }
  lia.
Qed.

Lemma foldr_add_ext {A} (f g : A -> Z) (l : list A) :
  (forall x, x ∈ l -> f x = g x) ->
  foldr (fun x acc => f x + acc) 0 l = foldr (fun x acc => g x + acc) 0 l.
Proof.
  induction l as [|x l IH]; intros H; simpl; [lia|].
  rewrite (H x) by left. rewrite IH; [done|]. intros; apply H; by right.
Qed.

Lemma task_load_le_pulse_load sigma tasks demands r u t :
  task_load sigma tasks demands r u t <= pulse_load sigma tasks demands r u t.
Proof.
  unfold task_load, pulse_load. destruct (tasks !! t); [|lia].
  destruct (Cpo.active _ _ _); lia.
Qed.

Lemma capacities_Ok inst prep tasks caps :
  capacities inst prep tasks = Ok caps ->
  Forall (fun c => exists f cap, c = Cpo.le f cap) caps /\
  forall r : nat, Z.of_nat r < NB_RESOURCES inst ->
    exists ps cap,
      pulses prep tasks (Z.of_nat r) (range (NB_TASKS inst)) = Ok ps /\
      CAPACITIES inst !! r = Some cap /\
      caps !! r = Some (Cpo.le (Cpo.sum ps) cap).
Proof.
  unfold capacities. intros H. apply add_Ok in H. split.
  - apply Forall_forall. intros c Hc.
    apply list_elem_of_lookup in Hc as (i & Hi).
    destruct (mapM_Ok_lookup_r _ _ _ _ _ H Hi) as (r & _ & Hf). inv_Ok.
    subst c. eauto.
  - intros r Hr.
    destruct (mapM_Ok_lookup _ _ _ _ _ H (range_lookup _ _ Hr)) as (c & Hc & Hf).
    inv_Ok. subst c. rewrite getitem_nat in E0.
    destruct (CAPACITIES inst !! r) as [cap|]; [|discriminate]. inv_Ok. subst.
    eauto.
Qed.
Example small_file_read : read small_file = Ok small_inst.
Proof. reflexivity. Qed.
Example small_file_prepared : prepare small_inst = Ok small_prep.
Proof. reflexivity. Qed.
Example small_file_tasks : make_tasks small_inst small_prep = Ok small_tasks.
Proof. reflexivity. Qed.
Example small_file_model : build small_inst small_prep = Ok small_model.
Proof. reflexivity. Qed.
Example small_file_run : rcpsp small_file = Ok (small_model, solve_call).
Proof. reflexivity. Qed.

Example small_schedule_admitted : Cpo.admits small_model small_schedule.
Proof.
  unfold Cpo.admits, small_model. repeat apply Forall_cons_2; try apply Forall_nil_2;
    try (cbv; congruence); try exact I; try reflexivity.
  - intros u. simpl. unfold Cpo.active, Cpo.start_time, Cpo.end_time. simpl.
    unfold small_schedule. simpl. 
    repeat match goal with |- context [?a <=? ?b] => destruct (Z.leb_spec a b) 
      | |- context [?a <? ?b] => destruct (Z.ltb_spec a b) end; simpl; lia.
  - intros u. simpl. unfold Cpo.active, Cpo.start_time, Cpo.end_time. simpl.
    destruct (_ && _); lia.
Qed.

Lemma admits_elem (mdl : Cpo.model) (sigma : Cpo.schedule) (x : Cpo.expr) :
  Cpo.admits mdl sigma -> x ∈ mdl -> Cpo.holds sigma x.
Proof. unfold Cpo.admits. rewrite Forall_forall. auto. Qed.

(** The constraint line 78 posts for one listed successor, whatever its
    sign. *)
Lemma precedence_in_model
    (inst : instance) (prep : prepared) (tasks : list Cpo.interval_var)
    (mdl : Cpo.model) (t : nat) (succ : list Z) (s : Z) :
  make_tasks inst prep = Ok tasks ->
  build inst prep = Ok mdl ->
  Z.of_nat t < NB_TASKS inst ->
  SUCCESSORS prep !! t = Some succ -> s ∈ succ ->
  exists a b,
    tasks !! t = Some a /\ getitem tasks (s - 1) = Ok b /\
    Cpo.end_before_start a b ∈ mdl.
Proof.
  intros Htasks Hbuild Ht Hsucc Hs.
  apply build_Ok in Hbuild as (tasks' & prec & caps & Htasks' & Hprec & _ & ->).
  assert (tasks' = tasks) as -> by congruence.
  apply precedences_Ok in Hprec as [_ Hprec].
  destruct (Hprec t succ s Ht Hsucc Hs) as (a & b & Ha & Hb & Hin).
  exists a, b. repeat split; try done. apply elem_of_app. by left.
Qed.


(** A successor identifier 0 names, through [tasks[-1]], the last task; an
    identifier beyond the task count ends the run. *)
Example successor_zero_wraps :
  exists mdl kw,
    rcpsp ("2 1" +:+ nl +:+ "1" +:+ nl +:+ "1 1 1 0" +:+ nl +:+ "1 1 0" +:+ nl)
    = Ok (mdl, kw) /\
    mdl !! 0%nat = Some (Cpo.end_before_start {| Cpo.name := "T1"; Cpo.size := 1 |}
                                              {| Cpo.name := "T2"; Cpo.size := 1 |}).
Proof. eexists _, _. split; [vm_compute; reflexivity | reflexivity]. Qed.

Example successor_out_of_range :
  rcpsp ("2 1" +:+ nl +:+ "1" +:+ nl +:+ "1 1 1 3" +:+ nl +:+ "1 1 0" +:+ nl)
  = Raise CpoException.
Proof. reflexivity. Qed.

Lemma pulses_positive prep tasks r rng ps :
  pulses prep tasks r rng = Ok ps ->
  Forall (fun p => exists v h, p = Cpo.pulse v h /\ 0 < h) ps.
Proof.
  revert ps. induction rng as [|t rng IH]; intros ps; simpl.
  - intros [= <-]. constructor.
  - intros H. inv_Ok.
    match goal with
    | G : (if 0 <? ?d then _ else _) = Ok _ |- _ =>
        destruct (Z.ltb_spec 0 d) as [Hd|Hd]
    end.
    + inv_Ok. subst ps. constructor; [|by apply IH].
      repeat match goal with
        | G1 : ?x = Ok ?a, G2 : ?x = Ok ?b |- _ =>
            assert (a = b) by congruence; subst; clear G2
        end.
      eauto.
    + by apply IH.
Qed.

Lemma pulses_lookup prep tasks r rng ps t :
  pulses prep tasks r rng = Ok ps -> t ∈ rng ->
  exists row d, getitem (DEMANDS prep) t = Ok row /\ getitem row r = Ok d.
Proof.
  revert ps. induction rng as [|t' rng IH]; intros ps H Ht; simpl in H.
  - by apply elem_of_nil in Ht.
  - apply bind_Ok in H as (row & Hrow & H). apply bind_Ok in H as (d & Hd & H).
    apply elem_of_cons in Ht as [->|Ht]; [eauto|].
    destruct (0 <? d); [|by eapply IH].
    inv_Ok. by eapply IH.
Qed.

Lemma level_sum_pulses sigma inst prep tasks (r : nat) ps u :
  length tasks = Z.to_nat (NB_TASKS inst) ->
  pulses prep tasks (Z.of_nat r) (range (NB_TASKS inst)) = Ok ps ->
  Cpo.level sigma (Cpo.sum ps) u =
  foldr (fun t acc => pulse_load sigma tasks (DEMANDS prep) r u t + acc) 0
        (seq 0 (length tasks)).
Proof.
  intros L H. rewrite range_fmap in H. rewrite L. by apply pulses_level.
Qed.

(** C2. For every resource [r] below [NB_RESOURCES] the built model holds a
    constraint [sum(pulses) <= CAPACITIES[r]] whose pulses have positive
    heights; every schedule the model admits keeps, at every time unit, the
    summed demand [DEMANDS[t][r]] of all active tasks within the capacity;
    and when no demand is negative the posted constraint says exactly that
    of the sum over all tasks. *)
Theorem capacity_constraints_posted
    (inst : instance) (prep : prepared) (tasks : list Cpo.interval_var)
    (mdl : Cpo.model) (r : nat) :
  make_tasks inst prep = Ok tasks ->
  build inst prep = Ok mdl ->
  Z.of_nat r < NB_RESOURCES inst ->
  exists ps cap,
    CAPACITIES inst !! r = Some cap /\
    Cpo.le (Cpo.sum ps) cap ∈ mdl /\
    Forall (fun p => exists v h, p = Cpo.pulse v h /\ 0 < h) ps /\
    (forall sigma, Cpo.admits mdl sigma ->
       forall u, active_demand sigma tasks (DEMANDS prep) r u <= cap) /\
    ((forall t row d, DEMANDS prep !! t = Some row -> row !! r = Some d -> 0 <= d) ->
     forall sigma,
       Cpo.holds sigma (Cpo.le (Cpo.sum ps) cap) <->
       forall u, active_demand sigma tasks (DEMANDS prep) r u <= cap).
Proof.
  intros Htasks Hbuild Hr.
  apply build_Ok in Hbuild as (tasks' & prec & caps & Htasks' & _ & Hcaps & ->).
  assert (tasks' = tasks) as -> by congruence.
  apply capacities_Ok in Hcaps as [_ Hcaps].
  destruct (Hcaps r Hr) as (ps & cap & Hps & Hcap & Hc).
  destruct (make_tasks_Ok _ _ _ Htasks) as [L _].
  assert (Hin : Cpo.le (Cpo.sum ps) cap ∈ prec ++ caps ++ objective inst tasks).
  { apply elem_of_app. right. apply elem_of_app. left.
    apply list_elem_of_lookup. eauto. }
  exists ps, cap. split; [done|]. split; [done|].
  split; [by eapply pulses_positive|]. split.
  - intros sigma Hadm u. unfold Cpo.admits in Hadm. rewrite Forall_forall in Hadm.
    specialize (Hadm _ Hin u). simpl in Hadm.
    change (Cpo.level sigma (Cpo.sum ps) u <= cap) in Hadm.
    rewrite (level_sum_pulses sigma inst prep tasks r ps u L Hps) in Hadm.
    etrans; [|exact Hadm]. unfold active_demand.
    apply foldr_add_le. intros t _. apply task_load_le_pulse_load.
  - intros Hnonneg sigma. simpl.
    assert (Heq : forall u, Cpo.level sigma (Cpo.sum ps) u =
                            active_demand sigma tasks (DEMANDS prep) r u).
    { intros u. rewrite (level_sum_pulses sigma inst prep tasks r ps u L Hps).
      unfold active_demand. apply foldr_add_ext. intros t _.
      unfold pulse_load, task_load. destruct (tasks !! t); [|done].
      destruct (Cpo.active _ _ _); [|done].
      destruct (DEMANDS prep !! t) as [row|] eqn:Hrow; simpl; [|done].
      destruct (row !! r) as [d|] eqn:Hd; simpl; [|done].
      specialize (Hnonneg _ _ _ Hrow Hd). lia. }
    split; intros H u.
    + rewrite <- Heq. apply H.
    + change (Cpo.level sigma (Cpo.sum ps) u <= cap). rewrite Heq. apply H.
Qed.

Lemma capacity_constraints_posted_witness :
  exists ps cap,
    CAPACITIES small_inst !! 0%nat = Some cap /\
    Cpo.le (Cpo.sum ps) cap ∈ small_model /\
    Forall (fun p => exists v h, p = Cpo.pulse v h /\ 0 < h) ps /\
    (forall sigma, Cpo.admits small_model sigma ->
       forall u, active_demand sigma small_tasks (DEMANDS small_prep) 0 u <= cap) /\
    ((forall t row d, DEMANDS small_prep !! t = Some row -> row !! 0%nat = Some d ->
                      0 <= d) ->
     forall sigma,
       Cpo.holds sigma (Cpo.le (Cpo.sum ps) cap) <->
       forall u, active_demand sigma small_tasks (DEMANDS small_prep) 0 u <= cap).
Proof.
  apply (capacity_constraints_posted small_inst small_prep small_tasks small_model 0);
    [reflexivity | reflexivity | simpl; lia].
Defined.
Lemma objective_elem inst tasks (x : Cpo.expr) :
  x ∈ objective inst tasks <->
  x = Cpo.minimize (makespan tasks) \/
  exists bound, OPTIMAL_BOUND inst = Some bound /\ x = Cpo.eq (makespan tasks) bound.
Proof.
  unfold objective. destruct (OPTIMAL_BOUND inst) as [b|].
  - rewrite !elem_of_cons, elem_of_nil. split.
    + intros [->|[->|[]]]; eauto.
    + intros [->|(b' & [= <-] & ->)]; auto.
  - rewrite elem_of_cons, elem_of_nil. split.
    + intros [->|[]]; eauto.
    + intros [->|(b' & [=] & _)]; auto.
Qed.

(** What the model is made of: precedence constraints, capacity constraints,
    the objective and, with a bound, the equality. *)
Lemma model_elem inst prep tasks mdl (x : Cpo.expr) :
  make_tasks inst prep = Ok tasks ->
  build inst prep = Ok mdl ->
  x ∈ mdl ->
  (exists a b, x = Cpo.end_before_start a b) \/
  (exists f cap, x = Cpo.le f cap) \/
  x = Cpo.minimize (makespan tasks) \/
  exists bound, OPTIMAL_BOUND inst = Some bound /\ x = Cpo.eq (makespan tasks) bound.
Proof.
  intros Htasks Hbuild Hx.
  apply build_Ok in Hbuild as (tasks' & prec & caps & Htasks' & Hprec & Hcaps & ->).
  assert (tasks' = tasks) as -> by congruence.
  apply precedences_Ok in Hprec as [Hprec _].
  apply capacities_Ok in Hcaps as [Hcaps _].
  rewrite Forall_forall in Hprec, Hcaps.
  apply elem_of_app in Hx as [Hx|Hx]; [left; by apply Hprec|].
  apply elem_of_app in Hx as [Hx|Hx]; [right; left; by apply Hcaps|].
  right; right. by apply objective_elem.
Qed.

Lemma objective_in_model inst prep tasks mdl (x : Cpo.expr) :
  make_tasks inst prep = Ok tasks ->
  build inst prep = Ok mdl ->
  x ∈ objective inst tasks -> x ∈ mdl.
Proof.
  intros Htasks Hbuild Hx.
  apply build_Ok in Hbuild as (tasks' & prec & caps & Htasks' & _ & _ & ->).
  assert (tasks' = tasks) as -> by congruence.
  apply elem_of_app. right. apply elem_of_app. by right.
Qed.

(** C3. When the first line holds a third value, the model holds the equality
    [makespan == OPTIMAL_BOUND] (and no other equality), so every schedule the
    model admits has that makespan; without a third value the model holds no
    equality. *)
Theorem optimal_bound_fixes_makespan
    (file : string) (inst : instance) (prep : prepared)
    (tasks : list Cpo.interval_var) (mdl : Cpo.model) :
  read file = Ok inst ->
  make_tasks inst prep = Ok tasks ->
  build inst prep = Ok mdl ->
  match Py.split (line 0 file) !! 2%nat with
  | Some c =>
      exists bound,
        Py.int c = Ok bound /\
        Cpo.eq (makespan tasks) bound ∈ mdl /\
        (forall e b, Cpo.eq e b ∈ mdl -> e = makespan tasks /\ b = bound) /\
        forall sigma, Cpo.admits mdl sigma ->
          Cpo.value sigma (makespan tasks) = Some bound
  | None => forall e b, Cpo.eq e b ∉ mdl
  end.
Proof.
  intros Hread Htasks Hbuild.
  apply read_Ok in Hread as (_ & Hbound & _).
  destruct (Py.split (line 0 file) !! 2%nat) as [c|].
  - destruct Hbound as (bound & Hint & Hob). exists bound.
    assert (Hin : Cpo.eq (makespan tasks) bound ∈ mdl).
    { eapply objective_in_model; [done..|]. apply objective_elem. eauto. }
    repeat split; try done.
    + destruct (model_elem _ _ _ _ _ Htasks Hbuild H)
        as [(?&?&?)|[(?&?&?)|[?|(b'&?&?)]]]; congruence.
    + destruct (model_elem _ _ _ _ _ Htasks Hbuild H)
        as [(?&?&?)|[(?&?&?)|[?|(b'&?&?)]]]; congruence.
    + intros sigma Hadm. unfold Cpo.admits in Hadm. rewrite Forall_forall in Hadm.
      apply (Hadm _ Hin).
  - intros e b Hin.
    destruct (model_elem _ _ _ _ _ Htasks Hbuild Hin)
      as [(?&?&?)|[(?&?&?)|[?|(b'&?&?)]]]; congruence.
Qed.

Lemma optimal_bound_fixes_makespan_witness :
  exists bound,
    Py.int "7" = Ok bound /\
    Cpo.eq (makespan small_tasks) bound ∈ small_model /\
    (forall e b, Cpo.eq e b ∈ small_model -> e = makespan small_tasks /\ b = bound) /\
    forall sigma, Cpo.admits small_model sigma ->
      Cpo.value sigma (makespan small_tasks) = Some bound.
Proof.
  apply (optimal_bound_fixes_makespan small_file small_inst small_prep
           small_tasks small_model); reflexivity.
Defined.
(** A file without bound: the model of [cyclic_file] holds no equality. *)
Example cyclic_file_no_equality :
  exists mdl kw, rcpsp cyclic_file = Ok (mdl, kw) /\
                 forall e b, Cpo.eq e b ∉ mdl.
Proof.
  eexists _, _. split; [vm_compute; reflexivity|].
  intros e b H. repeat (apply elem_of_cons in H as [H|H]; [discriminate H|]).
  by apply elem_of_nil in H.
Qed.

Lemma foldr_max_spec (z : Z) (l : list Z) :
  foldr Z.max z l ∈ z :: l /\ forall x, x ∈ z :: l -> x <= foldr Z.max z l.
Proof.
  induction l as [|y l [IHin IHle]]; simpl.
  - split; [left|]. intros x Hx%list_elem_of_singleton. lia.
  - split.
    + destruct (Z.max_spec y (foldr Z.max z l)) as [[_ ->]|[_ ->]].
      * apply elem_of_cons in IHin as [->|Hin]; [left|right; by right].
      * right; left.
    + intros x Hx. apply elem_of_cons in Hx as [->|Hx].
      * specialize (IHle z ltac:(left)). lia.
      * apply elem_of_cons in Hx as [->|Hx]; [lia|].
        specialize (IHle x ltac:(by right)). lia.
Qed.

Lemma largest_spec (l : list Z) (M : Z) :
  Cpo.largest l = Some M <-> M ∈ l /\ forall x, x ∈ l -> x <= M.
Proof.
  destruct l as [|z l]; simpl.
  - split; [discriminate|]. intros [H%elem_of_nil _]. done.
  - destruct (foldr_max_spec z l) as [Hin Hle]. split.
    + intros [= <-]. done.
    + intros [HM Hub]. f_equal. specialize (Hle M HM). specialize (Hub _ Hin). lia.
Qed.

Lemma value_makespan (sigma : Cpo.schedule) (tasks : list Cpo.interval_var) :
  Cpo.value sigma (makespan tasks) = Cpo.largest (Cpo.end_time sigma <$> tasks).
Proof.
  unfold makespan. simpl.
  assert (H : mapM (Cpo.value sigma) (map Cpo.end_of tasks)
              = Some (Cpo.end_time sigma <$> tasks)).
  { induction tasks as [|v tasks IH]; simpl; [done|]. by rewrite IH. }
  by rewrite H.
Qed.

(** C5. The objective the model minimizes is the makespan expression, and its
    value in a schedule is the largest end time, start plus duration, over
    all tasks: no task ends later and some task ends then. *)
Theorem objective_is_latest_end
    (inst : instance) (prep : prepared) (tasks : list Cpo.interval_var)
    (mdl : Cpo.model) :
  make_tasks inst prep = Ok tasks ->
  build inst prep = Ok mdl ->
  Cpo.minimize (makespan tasks) ∈ mdl /\
  (forall e, Cpo.minimize e ∈ mdl -> e = makespan tasks) /\
  forall (sigma : Cpo.schedule) (M : Z),
    Cpo.value sigma (makespan tasks) = Some M <->
    (forall t v d, tasks !! t = Some v -> DURATIONS prep !! t = Some d ->
                   Cpo.start_time sigma v + d <= M) /\
    (exists t v d, tasks !! t = Some v /\ DURATIONS prep !! t = Some d /\
                   M = Cpo.start_time sigma v + d).
Proof.
  intros Htasks Hbuild. split; [|split].
  - eapply objective_in_model; [done..|]. apply objective_elem. by left.
  - intros e He.
    destruct (model_elem _ _ _ _ _ Htasks Hbuild He)
      as [(?&?&?)|[(?&?&?)|[?|(b'&?&?)]]]; congruence.
  - intros sigma M. rewrite value_makespan, largest_spec.
    destruct (make_tasks_Ok _ _ _ Htasks) as [_ Hdur].
    split.
    + intros [Hin Hub]. split.
      * intros t v d Hv Hd. destruct (Hdur _ _ Hv) as [Hd' _].
        assert (d = Cpo.size v) as -> by congruence.
        apply Hub. apply list_elem_of_fmap. exists v. split; [done|].
        apply list_elem_of_lookup. eauto.
      * apply list_elem_of_fmap in Hin as (v & -> & Hv).
        apply list_elem_of_lookup in Hv as (t & Hv).
        destruct (Hdur _ _ Hv) as [Hd _]. exists t, v, (Cpo.size v). done.
    + intros [Hub (t & v & d & Hv & Hd & ->)].
      destruct (Hdur _ _ Hv) as [Hd' _].
      assert (d = Cpo.size v) as -> by congruence. split.
      * apply list_elem_of_fmap. exists v. split; [done|].
        apply list_elem_of_lookup. eauto.
      * intros x (w & -> & Hw)%list_elem_of_fmap.
        apply list_elem_of_lookup in Hw as (t' & Hw).
        destruct (Hdur _ _ Hw) as [Hdw _]. by apply (Hub t' w).
Qed.

Lemma objective_is_latest_end_witness :
  Cpo.minimize (makespan small_tasks) ∈ small_model /\
  (forall e, Cpo.minimize e ∈ small_model -> e = makespan small_tasks) /\
  forall (sigma : Cpo.schedule) (M : Z),
    Cpo.value sigma (makespan small_tasks) = Some M <->
    (forall t v d, small_tasks !! t = Some v -> DURATIONS small_prep !! t = Some d ->
                   Cpo.start_time sigma v + d <= M) /\
    (exists t v d, small_tasks !! t = Some v /\ DURATIONS small_prep !! t = Some d /\
                   M = Cpo.start_time sigma v + d).
Proof.
  apply (objective_is_latest_end small_inst small_prep small_tasks small_model);
    reflexivity.
Defined.

Example small_schedule_makespan :
  Cpo.value small_schedule (makespan small_tasks) = Some 7.
Proof. reflexivity. Qed.
(** C6, as stated, fails: [small_file] carries the bound 7 and the model built
    from it holds the objective [minimize(makespan)]. *)
Lemma no_objective_with_bound_counterexample :
  ~ (forall (file : string) (inst : instance) (prep : prepared) (mdl : Cpo.model)
            (bound : Z),
       read file = Ok inst -> prepare inst = Ok prep -> build inst prep = Ok mdl ->
       OPTIMAL_BOUND inst = Some bound ->
       forall e, Cpo.minimize e ∉ mdl).
Proof.
  intros H.
  apply (H small_file small_inst small_prep small_model 7
           eq_refl eq_refl eq_refl eq_refl (makespan small_tasks)).
  unfold small_model. do 6 right. left.
Qed.

(** C6, amended. The model holds the objective [minimize(makespan)] in every
    case, with or without a bound: the model ends with the objective, which a
    supplied bound lets the equality [makespan == OPTIMAL_BOUND] follow.  With
    a bound every schedule the model admits has that makespan, so there is
    only that value to prove or disprove. *)
Theorem objective_always_posted
    (inst : instance) (prep : prepared) (tasks : list Cpo.interval_var)
    (mdl : Cpo.model) :
  make_tasks inst prep = Ok tasks ->
  build inst prep = Ok mdl ->
  Cpo.minimize (makespan tasks) ∈ mdl /\
  (exists constraints,
     Forall (fun x => forall e, x <> Cpo.minimize e) constraints /\
     mdl = constraints ++
           Cpo.minimize (makespan tasks) ::
           match OPTIMAL_BOUND inst with
           | Some bound => [Cpo.eq (makespan tasks) bound]
           | None => []
           end) /\
  forall bound, OPTIMAL_BOUND inst = Some bound ->
    forall sigma, Cpo.admits mdl sigma ->
      Cpo.value sigma (makespan tasks) = Some bound.
Proof.
  intros Htasks Hbuild. split; [|split].
  - eapply objective_in_model; [done..|]. apply objective_elem. by left.
  - apply build_Ok in Hbuild as (tasks' & prec & caps & Htasks' & Hprec & Hcaps & ->).
    assert (tasks' = tasks) as -> by congruence.
    apply precedences_Ok in Hprec as [Hprec _].
    apply capacities_Ok in Hcaps as [Hcaps _].
    exists (prec ++ caps). split.
    + apply Forall_app. split; eapply Forall_impl; try eassumption; simpl.
      * intros x (a & b & ->) e. discriminate.
      * intros x (f & cap & ->) e. discriminate.
    + by rewrite <- app_assoc.
  - intros bound Hbound sigma Hadm.
    assert (Hin : Cpo.eq (makespan tasks) bound ∈ mdl).
    { eapply objective_in_model; [done..|]. apply objective_elem. eauto. }
    apply (admits_elem _ _ _ Hadm Hin).
Qed.

Lemma objective_always_posted_witness :
  Cpo.minimize (makespan small_tasks) ∈ small_model /\
  (exists constraints,
     Forall (fun x => forall e, x <> Cpo.minimize e) constraints /\
     small_model = constraints ++
           Cpo.minimize (makespan small_tasks) :: [Cpo.eq (makespan small_tasks) 7]) /\
  forall bound, OPTIMAL_BOUND small_inst = Some bound ->
    forall sigma, Cpo.admits small_model sigma ->
      Cpo.value sigma (makespan small_tasks) = Some bound.
Proof.
  apply (objective_always_posted small_inst small_prep small_tasks small_model);
    reflexivity.
Defined.

(** C7, as stated, fails: the call that [small_file] reaches passes both
    limits. *)
Lemma unbounded_search_counterexample :
  ~ (forall (file : string) (mdl : Cpo.model) (kw : Cpo.solve_kwargs),
       rcpsp file = Ok (mdl, kw) -> Cpo.unbounded kw).
Proof.
  intros H. destruct (H small_file small_model solve_call eq_refl) as [Hfail _].
  discriminate Hfail.
Qed.

(** C7, amended. Every run that reaches the engine calls it with a fail limit
    of 1000000 and a time limit of 10: the search is bounded in both
    respects. *)
Theorem search_limits_passed
    (file : string) (mdl : Cpo.model) (kw : Cpo.solve_kwargs) :
  rcpsp file = Ok (mdl, kw) ->
  Cpo.FailLimit kw = Some 1000000 /\ Cpo.TimeLimit kw = Some 10 /\
  ~ Cpo.unbounded kw.
Proof.
  unfold rcpsp. intros H. inv_Ok. subst kw. simpl.
  repeat split. intros [Hfail _]. discriminate Hfail.
Qed.

Lemma search_limits_passed_witness :
  Cpo.FailLimit solve_call = Some 1000000 /\ Cpo.TimeLimit solve_call = Some 10 /\
  ~ Cpo.unbounded solve_call.
Proof.
  apply (search_limits_passed small_file small_model solve_call). reflexivity.
Defined.

(** *** Walks along successor edges *)

Lemma walk_start_times inst prep tasks mdl sigma :
  make_tasks inst prep = Ok tasks ->
  build inst prep = Ok mdl ->
  Cpo.admits mdl sigma ->
  forall path t last a,
    tasks !! t = Some a -> walk prep t path last ->
    exists b, tasks !! last = Some b /\
              Cpo.start_time sigma a + walk_duration prep t path
              <= Cpo.start_time sigma b.
Proof.
  intros Htasks Hbuild Hadm. induction path as [|t' path IH]; intros t last a Ha; simpl.
  - intros <-. exists a. split; [done|lia].
  - intros [(succ & s & Hsucc & Hs & Hpos & ->) Hwalk].
    destruct (make_tasks_Ok _ _ _ Htasks) as [L _].
    assert (Ht : Z.of_nat t < NB_TASKS inst).
    { apply lookup_lt_Some in Ha. lia. }
    destruct (precedence_in_model _ _ _ _ _ _ _ Htasks Hbuild Ht Hsucc Hs)
      as (a' & b & Ha' & Hb & Hin).
    assert (a' = a) as -> by congruence.
    apply getitem_Ok_nonneg in Hb; [|lia].
    destruct (make_tasks_Ok _ _ _ Htasks) as [_ Hdur].
    destruct (Hdur _ _ Ha) as [Hd _].
    pose proof (admits_elem _ _ _ Hadm Hin) as Hle. simpl in Hle.
    unfold Cpo.end_time in Hle.
    destruct (IH _ _ _ Hb Hwalk) as (c & Hc & Hle').
    exists c. split; [done|]. unfold duration. rewrite Hd. simpl.
    unfold Cpo.start_time in *. lia.
Qed.




(** With durations 0 the same cycle is satisfied by starting both tasks at 0:
    the condition on the durations cannot be dropped. *)
Example cyclic_file_zero_admitted :
  exists mdl kw, rcpsp cyclic_file_zero = Ok (mdl, kw) /\
                 Cpo.admits mdl (fun _ => 0).
Proof.
  eexists _, _. split; [vm_compute; reflexivity|].
  repeat apply Forall_cons_2; try apply Forall_nil_2; try exact I;
    try (cbv; congruence).
  intros u. simpl. unfold Cpo.active, Cpo.start_time, Cpo.end_time. simpl.
  destruct (Z.leb_spec 0 u), (Z.ltb_spec u (0 + 0)); simpl; lia.
Qed.

(** C4. The reader takes the first two values of line 1 as the task count and
    the resource count and an optional third as the bound, the values of
    line 2 as the capacities, and from each of the next [NB_TASKS] lines value
    0 as the duration, values 1 to [NB_RESOURCES] as the demand vector and the
    values from position [NB_RESOURCES + 2] on as the successor list. *)
Theorem instance_file_layout (file : string) (inst : instance) (prep : prepared) :
  read file = Ok inst -> prepare inst = Ok prep -> 0 <= NB_RESOURCES inst ->
  (exists a b, Py.split (line 0 file) !! 0%nat = Some a /\
               Py.int a = Ok (NB_TASKS inst) /\
               Py.split (line 0 file) !! 1%nat = Some b /\
               Py.int b = Ok (NB_RESOURCES inst)) /\
  match Py.split (line 0 file) !! 2%nat with
  | Some c => exists z, Py.int c = Ok z /\ OPTIMAL_BOUND inst = Some z
  | None => OPTIMAL_BOUND inst = None
  end /\
  ints (Py.split (line 1 file)) = Ok (CAPACITIES inst) /\
  forall t : nat, Z.of_nat t < NB_TASKS inst ->
    exists vals d dem succ,
      ints (Py.split (line (2 + t) file)) = Ok vals /\
      vals !! 0%nat = Some d /\ DURATIONS prep !! t = Some d /\
      DEMANDS prep !! t = Some dem /\
      (length dem <= Z.to_nat (NB_RESOURCES inst))%nat /\
      (forall k : nat, (1 <= k <= Z.to_nat (NB_RESOURCES inst))%nat ->
                       dem !! (k - 1)%nat = vals !! k) /\
      SUCCESSORS prep !! t = Some succ /\
      (forall j : nat,
         succ !! j = vals !! (Z.to_nat (NB_RESOURCES inst) + 2 + j)%nat).
Proof.
  intros Hread Hprep Hm.
  destruct (read_Ok _ _ Hread) as (Hcounts & Hbound & Hcaps & _ & Hrows).
  destruct (prepare_Ok _ _ Hprep) as (_ & _ & _ & Hprep').
  repeat split; try done.
  intros t Ht.
  destruct (Hrows t Ht) as (vals & Hvals & Hints).
  destruct (Hprep' t Ht) as (row & d & Hrow & Hd & Hdur & Hdem & Hsuc).
  assert (row = vals) as -> by congruence.
  rewrite slice_nonneg in Hdem by lia. rewrite slice_from_nonneg in Hsuc by lia.
  replace (Z.to_nat (NB_RESOURCES inst + 1 - 1)) with (Z.to_nat (NB_RESOURCES inst))
    in Hdem by lia.
  change (Z.to_nat 1) with 1%nat in Hdem.
  eexists vals, d, _, _.
  split; [done|]. split; [done|]. split; [done|]. split; [exact Hdem|].
  split; [|split; [|split; [exact Hsuc|]]].
  - rewrite length_take. lia.
  - intros k Hk. rewrite lookup_take_lt by lia. rewrite lookup_drop. f_equal. lia.
  - intros j. rewrite lookup_drop. f_equal. lia.
Qed.

Lemma instance_file_layout_witness :
  (exists a b, Py.split (line 0 small_file) !! 0%nat = Some a /\
               Py.int a = Ok (NB_TASKS small_inst) /\
               Py.split (line 0 small_file) !! 1%nat = Some b /\
               Py.int b = Ok (NB_RESOURCES small_inst)) /\
  match Py.split (line 0 small_file) !! 2%nat with
  | Some c => exists z, Py.int c = Ok z /\ OPTIMAL_BOUND small_inst = Some z
  | None => OPTIMAL_BOUND small_inst = None
  end /\
  ints (Py.split (line 1 small_file)) = Ok (CAPACITIES small_inst) /\
  forall t : nat, Z.of_nat t < NB_TASKS small_inst ->
    exists vals d dem succ,
      ints (Py.split (line (2 + t) small_file)) = Ok vals /\
      vals !! 0%nat = Some d /\ DURATIONS small_prep !! t = Some d /\
      DEMANDS small_prep !! t = Some dem /\
      (length dem <= Z.to_nat (NB_RESOURCES small_inst))%nat /\
      (forall k : nat, (1 <= k <= Z.to_nat (NB_RESOURCES small_inst))%nat ->
                       dem !! (k - 1)%nat = vals !! k) /\
      SUCCESSORS small_prep !! t = Some succ /\
      (forall j : nat,
         succ !! j = vals !! (Z.to_nat (NB_RESOURCES small_inst) + 2 + j)%nat).
Proof.
  apply (instance_file_layout small_file small_inst small_prep);
    [reflexivity | reflexivity | simpl; lia].
Defined.

(** With a negative resource count the slices count from the end of the line:
    the layout of C4 is that of counts that are not negative. *)
Example negative_resource_count :
  slice [5; 1; 2; 3] 1 (-2 + 1) = [1; 2] /\ slice_from [5; 1; 2; 3] (-3 + 2) = [3].
Proof. split; reflexivity. Qed.
(** *** The declared successor count *)

Section SameButCount.

Variable m : Z.
Hypothesis m_nonneg : 0 <= m.
Variables row row' : list Z.
Hypothesis rows : same_but_at (Z.to_nat (m + 1)) row row'.

Lemma same_duration : getitem row' 0 = getitem row 0.
Proof using m_nonneg rows.
  destruct rows as [c ->]. change 0 with (Z.of_nat 0). rewrite !getitem_nat.
  rewrite list_lookup_insert_ne by lia. done.
Qed.

Lemma same_demands : slice row' 1 (m + 1) = slice row 1 (m + 1).
Proof using m_nonneg rows.
  destruct rows as [c ->]. rewrite !slice_nonneg by lia.
  rewrite drop_insert_ge by lia. rewrite take_insert_ge by lia. done.
Qed.

Lemma same_successors : slice_from row' (m + 2) = slice_from row (m + 2).
Proof using m_nonneg rows.
  destruct rows as [c ->]. rewrite !slice_from_nonneg by lia.
  rewrite drop_insert_lt by lia. done.
Qed.

End SameButCount.

Lemma getitem_Forall2 {A} (R : A -> A -> Prop) (l l' : list A) (i : Z) :
  Forall2 R l l' ->
  match getitem l i, getitem l' i with
  | Ok x, Ok x' => R x x'
  | Raise e, Raise e' => e = e'
  | _, _ => False
  end.
Proof.
  intros H. unfold getitem, len. rewrite <- (Forall2_length _ _ _ H).
  destruct (_ <? 0); [done|].
  destruct (l !! _) as [x|] eqn:Hx.
  - destruct (Forall2_lookup_l _ _ _ _ _ H Hx) as (x' & -> & HR). done.
  - destruct (l' !! _) as [x'|] eqn:Hx'; [|done].
    destruct (Forall2_lookup_r _ _ _ _ _ H Hx') as (x & Hx2 & _). congruence.
Qed.

Lemma prepare_same_but_count (inst inst' : instance) :
  NB_TASKS inst' = NB_TASKS inst ->
  NB_RESOURCES inst' = NB_RESOURCES inst ->
  0 <= NB_RESOURCES inst ->
  Forall2 (same_but_at (Z.to_nat (NB_RESOURCES inst + 1))) (TASKS inst) (TASKS inst') ->
  prepare inst' = prepare inst.
Proof.
  intros Hn Hm Hpos Hrows. unfold prepare. rewrite Hn, Hm.
  assert (Hrow : forall (B : Type) (f : list Z -> result B) (t : Z),
            (forall row row', same_but_at (Z.to_nat (NB_RESOURCES inst + 1)) row row' ->
                              f row' = f row) ->
            getitem (TASKS inst') t ≫= f = getitem (TASKS inst) t ≫= f).
  { intros B f t Hf. pose proof (getitem_Forall2 _ _ _ t Hrows) as H.
    destruct (getitem (TASKS inst) t), (getitem (TASKS inst') t); simpl;
      try done; [by apply Hf | by subst]. }
  rewrite (mapM_ext_in
             (fun t => row ← getitem (TASKS inst') t; getitem row 0)
             (fun t => row ← getitem (TASKS inst) t; getitem row 0)).
  2:{ intros t _. apply Hrow. intros. by eapply same_duration. }
  rewrite (mapM_ext_in
             (fun t => row ← getitem (TASKS inst') t;
                       Ok (slice row 1 (NB_RESOURCES inst + 1)))
             (fun t => row ← getitem (TASKS inst) t;
                       Ok (slice row 1 (NB_RESOURCES inst + 1)))).
  2:{ intros t _. apply Hrow. intros. f_equal. by eapply same_demands. }
  rewrite (mapM_ext_in
             (fun t => row ← getitem (TASKS inst') t;
                       Ok (slice_from row (NB_RESOURCES inst + 2)))
             (fun t => row ← getitem (TASKS inst) t;
                       Ok (slice_from row (NB_RESOURCES inst + 2)))).
  2:{ intros t _. apply Hrow. intros. f_equal. by eapply same_successors. }
  done.
Qed.

(** The model builder does not look at [TASKS]. *)
Lemma build_ext (inst inst' : instance) (prep : prepared) :
  NB_TASKS inst' = NB_TASKS inst ->
  NB_RESOURCES inst' = NB_RESOURCES inst ->
  OPTIMAL_BOUND inst' = OPTIMAL_BOUND inst ->
  CAPACITIES inst' = CAPACITIES inst ->
  build inst' prep = build inst prep.
Proof.
  destruct inst, inst'. simpl. intros -> -> -> ->. reflexivity.
Qed.

(** C9. The value at position [NB_RESOURCES + 1] of a task line, the declared
    successor count, does not reach the model: two files that read alike but
    for that value in their task lines yield the same [DURATIONS], [DEMANDS]
    and [SUCCESSORS] and the same run. *)
Theorem successor_count_ignored (file file' : string) (inst inst' : instance) :
  read file = Ok inst -> read file' = Ok inst' ->
  NB_TASKS inst' = NB_TASKS inst ->
  NB_RESOURCES inst' = NB_RESOURCES inst ->
  OPTIMAL_BOUND inst' = OPTIMAL_BOUND inst ->
  CAPACITIES inst' = CAPACITIES inst ->
  0 <= NB_RESOURCES inst ->
  Forall2 (same_but_at (Z.to_nat (NB_RESOURCES inst + 1))) (TASKS inst) (TASKS inst') ->
  prepare inst' = prepare inst /\ rcpsp file' = rcpsp file.
Proof.
  intros Hread Hread' Hn Hm Hb Hc Hpos Hrows.
  pose proof (prepare_same_but_count _ _ Hn Hm Hpos Hrows) as Hprep.
  split; [done|]. unfold rcpsp. rewrite Hread, Hread'. simpl. rewrite Hprep.
  destruct (prepare inst) as [prep|e]; simpl; [|done].
  by rewrite (build_ext inst inst' prep).
Qed.

Lemma successor_count_ignored_witness :
  prepare small_inst_counts = prepare small_inst /\
  rcpsp small_file_counts = rcpsp small_file.
Proof.
  apply (successor_count_ignored small_file small_file_counts small_inst
           small_inst_counts);
    [reflexivity | reflexivity | reflexivity | reflexivity | reflexivity
    | reflexivity | simpl; lia | ].
  repeat constructor.
  - by exists 9.
  - by exists 0.
  - by exists (-5).
  - by exists 0.
Defined.
(** With the resource count -1 the position [NB_RESOURCES + 1] is that of the
    duration: C9 is about counts that are not negative. *)
Example negative_count_position :
  prepare {| NB_TASKS := 1; NB_RESOURCES := -1; OPTIMAL_BOUND := None;
             CAPACITIES := []; TASKS := [[4; 1; 2]] |}
  <> prepare {| NB_TASKS := 1; NB_RESOURCES := -1; OPTIMAL_BOUND := None;
                CAPACITIES := []; TASKS := [<[Z.to_nat (-1 + 1) := 9]> [4; 1; 2]] |}.
Proof. vm_compute. discriminate. Qed.

(** The declared count is converted by [int] like every value of the line, so
    it has to be an integer literal; nothing looks at it afterwards. *)
Example count_must_parse :
  rcpsp ("1 1" +:+ nl +:+ "1" +:+ nl +:+ "3 1 x" +:+ nl) = Raise ValueError /\
  exists mdl, rcpsp ("1 1" +:+ nl +:+ "1" +:+ nl +:+ "3 1 42" +:+ nl)
              = Ok (mdl, solve_call).
Proof. split; [reflexivity|]. eexists. vm_compute. reflexivity. Qed.

(** *** Short task lines *)

Example truncated_file_read : read truncated_file = Ok truncated_inst.
Proof. reflexivity. Qed.

Example truncated_file_prepare : prepare truncated_inst = Raise IndexError.
Proof. reflexivity. Qed.

Example truncated_file_run : rcpsp truncated_file = Raise IndexError.
Proof. reflexivity. Qed.

(** C10, as stated, fails: the second task line of [truncated_file] has no
    value, fewer than [NB_RESOURCES + 2 = 3], the other task line has all
    three, and extracting the durations raises [IndexError]. *)
Lemma short_line_counterexample :
  ~ (forall (file : string) (inst : instance) (t : nat) (row : list Z),
       read file = Ok inst ->
       TASKS inst !! t = Some row ->
       len row < NB_RESOURCES inst + 2 ->
       (forall t' row', t' <> t -> TASKS inst !! t' = Some row' ->
                        NB_RESOURCES inst + 2 <= len row') ->
       exists prep, prepare inst = Ok prep).
Proof.
  intros H.
  destruct (H truncated_file truncated_inst 1%nat [] eq_refl eq_refl) as [prep Hprep].
  - simpl. unfold len. simpl. lia.
  - intros [|[|t']] row' Hne Hrow'; simpl in Hrow'; try done.
    injection Hrow' as <-. unfold len. simpl. lia.
  - discriminate Hprep.
Qed.

(** C10, amended. When every task line read holds at least one value, the
    extraction raises nothing; a task line of fewer than [NB_RESOURCES + 2]
    values then gets an empty successor list and the demand vector of the
    values it has after the duration, which is shorter than [NB_RESOURCES]
    when the line has at most [NB_RESOURCES] values. *)
Theorem short_task_lines_accepted (file : string) (inst : instance) :
  read file = Ok inst ->
  (forall t row, TASKS inst !! t = Some row -> row <> []) ->
  exists prep,
    prepare inst = Ok prep /\
    forall t row, TASKS inst !! t = Some row ->
      len row < NB_RESOURCES inst + 2 ->
      SUCCESSORS prep !! t = Some [] /\
      exists dem, DEMANDS prep !! t = Some dem /\
                  len dem = Z.min (len row - 1) (NB_RESOURCES inst) /\
                  (len row <= NB_RESOURCES inst -> len dem < NB_RESOURCES inst).
Proof.
  intros Hread Hrows.
  destruct (read_Ok _ _ Hread) as (_ & _ & _ & Hlen & Htasks).
  destruct (prepare_total inst) as [prep Hprep].
  { intros t Ht. destruct (Htasks t Ht) as (row & Hrow & _). eauto. }
  exists prep. split; [done|]. intros t row Hrow Hshort.
  destruct (prepare_Ok _ _ Hprep) as (_ & _ & _ & Hprep').
  assert (Ht : Z.of_nat t < NB_TASKS inst).
  { apply lookup_lt_Some in Hrow. lia. }
  destruct (Hprep' t Ht) as (row' & d & Hrow' & Hd & _ & Hdem & Hsuc).
  assert (row' = row) as -> by congruence.
  assert (Hne : 1 <= len row).
  { unfold len. destruct row; [done|]. simpl. lia. }
  assert (Hm : 0 <= NB_RESOURCES inst) by lia.
  rewrite slice_nonneg in Hdem by lia. rewrite slice_from_nonneg in Hsuc by lia.
  unfold len in *. split.
  - rewrite Hsuc. f_equal. apply drop_ge. lia.
  - eexists. split; [exact Hdem|]. rewrite length_take, length_drop. lia.
Qed.

Lemma short_task_lines_accepted_witness :
  exists prep,
    prepare short_lines_inst = Ok prep /\
    forall t row, TASKS short_lines_inst !! t = Some row ->
      len row < NB_RESOURCES short_lines_inst + 2 ->
      SUCCESSORS prep !! t = Some [] /\
      exists dem, DEMANDS prep !! t = Some dem /\
                  len dem = Z.min (len row - 1) (NB_RESOURCES short_lines_inst) /\
                  (len row <= NB_RESOURCES short_lines_inst ->
                   len dem < NB_RESOURCES short_lines_inst).
Proof.
  apply (short_task_lines_accepted short_lines_file short_lines_inst);
    [reflexivity | ].
  intros [|[|[|t]]] row Hrow; simpl in Hrow; try discriminate;
    injection Hrow as <-; discriminate.
Defined.

Example short_lines_prepared :
  prepare short_lines_inst =
  Ok {| DURATIONS := [5; 5; 5]; DEMANDS := [[]; [1]; [1; 2]];
        SUCCESSORS := [[]; []; []] |}.
Proof. reflexivity. Qed.

(** The short demand vectors are met again when the capacity constraints are
    built: [DEMANDS[t][r]] then fails inside the generator, and the run ends
    in [mdl.add]. *)
Lemma build_needs_full_demands (inst : instance) (prep : prepared) (mdl : Cpo.model)
    (t r : nat) :
  build inst prep = Ok mdl ->
  Z.of_nat t < NB_TASKS inst -> Z.of_nat r < NB_RESOURCES inst ->
  exists row d, DEMANDS prep !! t = Some row /\ row !! r = Some d.
Proof.
  intros Hbuild Ht Hr.
  apply build_Ok in Hbuild as (tasks & prec & caps & _ & _ & Hcaps & _).
  apply capacities_Ok in Hcaps as [_ Hcaps].
  destruct (Hcaps r Hr) as (ps & cap & Hps & _).
  destruct (pulses_lookup _ _ _ _ _ (Z.of_nat t) Hps) as (row & d & Hrow & Hd).
  { apply range_elem. lia. }
  rewrite getitem_nat in Hrow. destruct (DEMANDS prep !! t) as [row'|]; [|done].
  injection Hrow as ->. rewrite getitem_nat in Hd.
  destruct (row !! r) as [d'|] eqn:E; [|done]. eauto.
Qed.

Example short_lines_run : rcpsp short_lines_file = Raise CpoException.
Proof. reflexivity. Qed.

(** ** Further properties of the reader *)

Lemma digits_exn (acc : Z) (b : bool) (s : string) (e : exn) :
  digits acc b s = Raise e -> e = ValueError.
Proof.
  revert acc b. induction s as [|c s IH]; intros acc b; simpl.
  - destruct b; congruence.
  - destruct (digit c); [apply IH|].
    destruct (_ && _); [apply IH|congruence].
Qed.

Lemma int_exn (s : string) (e : exn) : Py.int s = Raise e -> e = ValueError.
Proof.
  unfold Py.int. intros H.
  repeat match goal with
    | G : match ?x with _ => _ end = Raise _ |- _ => destruct x
    | G : _ ≫= _ = Raise _ |- _ => apply bind_Raise in G as [G|(? & ? & G)]
    | G : digits _ _ _ = Raise _ |- _ => apply digits_exn in G
    end; congruence.
Qed.

Lemma mapM_exn {A B} (f : A -> result B) (l : list A) (e0 e : exn) :
  (forall x e', f x = Raise e' -> e' = e0) -> mapM f l = Raise e -> e = e0.
Proof.
  intros Hf. induction l as [|x l IH]; simpl; [discriminate|].
  intros H. apply bind_Raise in H as [H|(y & _ & H)]; [by eapply Hf|].
  apply bind_Raise in H as [H|(k & _ & H)]; [by apply IH|discriminate].
Qed.

Lemma ints_exn (tokens : list string) (e : exn) :
  ints tokens = Raise e -> e = ValueError.
Proof. apply mapM_exn. apply int_exn. Qed.

Lemma read_tasks_exn (rng : list Z) (file : string) (e : exn) :
  read_tasks rng file = Raise e -> e = ValueError.
Proof.
  revert file. induction rng as [|i rng IH]; intros file; simpl; [discriminate|].
  destruct (Py.readline file) as [l file']. intros H.
  apply bind_Raise in H as [H|(row & _ & H)]; [by apply ints_exn in H|].
  apply bind_Raise in H as [H|(rows & _ & H)]; [by eapply IH|discriminate].
Qed.

Lemma prepare_exn (inst : instance) (e : exn) :
  prepare inst = Raise e -> e = IndexError.
Proof.
  unfold prepare. intros H.
  repeat match goal with
    | G : _ ≫= _ = Raise _ |- _ => apply bind_Raise in G as [G|(? & ? & G)]
    | G : mapM _ _ = Raise _ |- _ =>
        apply (mapM_exn _ _ IndexError) in G; [done|clear G; intros ? ? G]
    | G : getitem _ _ = Raise _ |- _ => by apply getitem_exn in G
    | G : Ok _ = Raise _ |- _ => discriminate G
    end.
Qed.

(** X2. The reader raises [IndexError] exactly when the first line lacks a
    count: it has no value at all, or a single value that is an integer. *)
Theorem read_index_error_iff (file : string) :
  read file = Raise IndexError <->
  Py.split (line 0 file) = [] \/
  exists a n, Py.split (line 0 file) = [a] /\ Py.int a = Ok n.
Proof.
  unfold read. simpl. destruct (Py.readline file) as [l1 file1]. simpl.
  destruct (Py.readline file1) as [l2 file2].
  destruct (Py.split l1) as [|a [|b rest]] eqn:Hsplit.
  - split; [auto|done].
  - change (getitem [a] 0) with (Ok a). simpl.
    destruct (Py.int a) as [n|e] eqn:Ha; simpl.
    + split; [intros _; right; eauto|done].
    + split.
      * intros [= ->]. by apply int_exn in Ha.
      * intros [H|(a' & n & [= <-] & Hn)]; congruence.
  - split; [|intros [H|(a' & n & H & _)]; discriminate].
    change (getitem (a :: b :: rest) 0) with (Ok a).
    change (getitem (a :: b :: rest) 1) with (Ok b). intros H. exfalso.
    repeat match goal with
      | G : _ ≫= _ = Raise _ |- _ => apply bind_Raise in G as [G|(? & ? & G)]
      | G : Py.int _ = Raise _ |- _ => apply int_exn in G; discriminate G
      | G : ints _ = Raise _ |- _ => apply ints_exn in G; discriminate G
      | G : read_tasks _ _ = Raise _ |- _ => apply read_tasks_exn in G; discriminate G
      | G : Ok _ = Raise _ |- _ => discriminate G
      | G : (if ?c then _ else _) = Raise _ |- _ => destruct c eqn:?
      end.
    unfold len in *. simpl length in *.
    destruct rest as [|c rest]; [simpl in *; discriminate|].
    change (getitem (a :: b :: c :: rest) 2) with (Ok c) in H. discriminate H.
Qed.

Lemma read_tasks_ext (rng : list Z) (file file' : string) :
  (forall t : nat, (t < length rng)%nat -> line t file' = line t file) ->
  read_tasks rng file' = read_tasks rng file.
Proof.
  revert file file'. induction rng as [|i rng IH]; intros file file' H; simpl; [done|].
  pose proof (H O ltac:(simpl; lia)) as H0. simpl in H0.
  destruct (Py.readline file) as [l f1] eqn:E, (Py.readline file') as [l' f1'] eqn:E'.
  simpl in H0. subst l'. rewrite (IH f1 f1'); [done|].
  intros t Ht. specialize (H (S t) ltac:(simpl; lia)). simpl in H.
  by rewrite E, E' in H.
Qed.

(** X3. The reader looks at the first [2 + NB_TASKS] lines only: a file that
    has the same lines up to there reads the same, whatever follows. *)
Theorem read_ignores_later_lines (file file' : string) (inst : instance) :
  read file = Ok inst ->
  (forall k : nat, Z.of_nat k < 2 + Z.max 0 (NB_TASKS inst) ->
                   line k file' = line k file) ->
  read file' = Ok inst.
Proof.
  intros Hread Hlines.
  destruct (read_Ok _ _ Hread) as ((a & b & Ha & Hn & Hb & Hm) & _).
  pose proof (Hlines 0%nat ltac:(lia)) as H0.
  pose proof (Hlines 1%nat ltac:(lia)) as H1.
  rewrite <- Hread. unfold read. simpl in *.
  destruct (Py.readline file) as [l1 f1] eqn:E1,
           (Py.readline file') as [l1' f1'] eqn:E1'.
  simpl in *. subst l1'.
  destruct (Py.readline f1) as [l2 f2] eqn:E2, (Py.readline f1') as [l2' f2'] eqn:E2'.
  simpl in *. subst l2'.
  apply (getitem_Ok_nonneg _ 0) in Ha; [|lia]. rewrite Ha. simpl. rewrite Hn. simpl.
  apply (getitem_Ok_nonneg _ 1) in Hb; [|lia]. rewrite Hb. simpl. rewrite Hm. simpl.
  rewrite (read_tasks_ext _ f2 f2'); [done|].
  intros t Ht. rewrite range_length in Ht.
  specialize (Hlines (S (S t)) ltac:(lia)). simpl in Hlines.
  rewrite E1, E1' in Hlines. simpl in Hlines. by rewrite E2, E2' in Hlines.
Qed.

Lemma read_ignores_later_lines_witness :
  read (small_file +:+ "not a task line" +:+ nl) = Ok small_inst.
Proof.
  apply (read_ignores_later_lines small_file); [reflexivity|].
  intros k Hk. simpl in Hk.
  do 6 (destruct k as [|k]; [reflexivity|]). lia.
Defined.

(** X4. Of the first line the reader converts the first three values at most:
    what follows them on that line, integer or not, changes nothing. *)
Theorem read_ignores_header_tail (file file' : string) :
  take 3 (Py.split (line 0 file')) = take 3 (Py.split (line 0 file)) ->
  snd (Py.readline file') = snd (Py.readline file) ->
  read file' = read file.
Proof.
  unfold read. simpl.
  destruct (Py.readline file) as [l1 f1], (Py.readline file') as [l1' f1'].
  simpl. intros Htake ->.
  assert (Hget : forall i, 0 <= i < 3 ->
            getitem (Py.split l1') i = getitem (Py.split l1) i).
  { intros i Hi. rewrite <- (Z2Nat.id i) by lia. rewrite !getitem_nat.
    rewrite <- (lookup_take_lt (Py.split l1') 3) by lia.
    rewrite <- (lookup_take_lt (Py.split l1) 3) by lia. by rewrite Htake. }
  assert (Hlen : (2 <? len (Py.split l1')) = (2 <? len (Py.split l1))).
  { apply (f_equal length) in Htake. rewrite !length_take in Htake. unfold len.
    destruct (Z.ltb_spec 2 (Z.of_nat (length (Py.split l1')))),
             (Z.ltb_spec 2 (Z.of_nat (length (Py.split l1)))); lia. }
  rewrite !Hget by lia. rewrite Hlen. done.
Qed.

Lemma read_ignores_header_tail_witness :
  read ("4 2 7 and a remark" +:+ nl +:+ snd (Py.readline small_file))
  = read small_file.
Proof.
  apply (read_ignores_header_tail small_file); reflexivity.
Defined.

(** ** Further properties of the extraction and of the task variables *)

(** X5. A task line of at least [NB_RESOURCES + 2] values is cut into its
    duration, [NB_RESOURCES] demands, the declared count and the successors:
    put together again in that order they give the line back, so only the
    declared count is dropped. *)
Theorem task_line_partition
    (inst : instance) (prep : prepared) (t : nat) (row : list Z) :
  prepare inst = Ok prep ->
  0 <= NB_RESOURCES inst ->
  Z.of_nat t < NB_TASKS inst ->
  TASKS inst !! t = Some row ->
  NB_RESOURCES inst + 2 <= len row ->
  exists d dem count succ,
    DURATIONS prep !! t = Some d /\
    DEMANDS prep !! t = Some dem /\
    SUCCESSORS prep !! t = Some succ /\
    len dem = NB_RESOURCES inst /\
    row = d :: dem ++ count :: succ.
Proof.
  intros Hprep Hm Ht Hrow Hlen.
  destruct (prepare_Ok _ _ Hprep) as (_ & _ & _ & H).
  destruct (H t Ht) as (row' & d & Hrow' & Hd & Hdur & Hdem & Hsuc).
  assert (row' = row) as -> by congruence.
  rewrite slice_nonneg in Hdem by lia. rewrite slice_from_nonneg in Hsuc by lia.
  replace (Z.to_nat (NB_RESOURCES inst + 1 - 1)) with (Z.to_nat (NB_RESOURCES inst))
    in Hdem by lia.
  change (Z.to_nat 1) with 1%nat in Hdem. unfold len in *.
  destruct (lookup_lt_is_Some_2 row (Z.to_nat (NB_RESOURCES inst + 1)) ltac:(lia))
    as [count Hcount].
  eexists d, _, count, _. split; [done|]. split; [exact Hdem|].
  split; [exact Hsuc|]. split.
  - rewrite length_take, length_drop. lia.
  - destruct row as [|d' row]; [done|]. injection Hd as ->. f_equal.
    change (drop 1 (d :: row)) with row.
    replace (Z.to_nat (NB_RESOURCES inst + 2))
      with (S (S (Z.to_nat (NB_RESOURCES inst)))) by lia.
    replace (Z.to_nat (NB_RESOURCES inst + 1)) with (S (Z.to_nat (NB_RESOURCES inst)))
      in Hcount by lia.
    simpl in *. symmetry. by apply take_drop_middle.
Qed.

Lemma task_line_partition_witness :
  exists d dem count succ,
    DURATIONS small_prep !! 0%nat = Some d /\
    DEMANDS small_prep !! 0%nat = Some dem /\
    SUCCESSORS small_prep !! 0%nat = Some succ /\
    len dem = NB_RESOURCES small_inst /\
    [0; 0; 0; 2; 2; 3] = d :: dem ++ count :: succ.
Proof.
  apply (task_line_partition small_inst small_prep 0 [0; 0; 0; 2; 2; 3]);
    [reflexivity | simpl; lia | simpl; lia | reflexivity | unfold len; simpl; lia].
Defined.

Lemma str_inj (k k' : Z) : Py.str k = Py.str k' -> k = k'.
Proof.
  unfold Py.str. intros H.
  assert (Hnn : forall z, Z.to_int z <> Decimal.Pos Decimal.Nil /\
                          Z.to_int z <> Decimal.Neg Decimal.Nil).
  { intros [|p|p]; simpl; split; try discriminate;
      intros [= Hp]; by apply Unsigned.to_uint_nonnil in Hp. }
  destruct (Hnn k) as [H1 H2], (Hnn k') as [H1' H2'].
  pose proof (NilZero.isi _ H1 H2) as E. rewrite H in E.
  rewrite (NilZero.isi _ H1' H2') in E. injection E as E.
  rewrite <- (DecimalZ.of_to k), <- (DecimalZ.of_to k'). by rewrite E.
Qed.

Lemma make_tasks_NoDup inst prep tasks :
  make_tasks inst prep = Ok tasks -> NoDup (Cpo.name <$> tasks).
Proof.
  intros Htasks. destruct (make_tasks_Ok _ _ _ Htasks) as [_ Hnames].
  apply NoDup_alt. intros i j x Hi Hj.
  apply list_lookup_fmap_Some in Hi as (v & -> & Hv).
  apply list_lookup_fmap_Some in Hj as (w & Hx & Hw).
  destruct (Hnames _ _ Hv) as [_ Nv], (Hnames _ _ Hw) as [_ Nw].
  rewrite Nv, Nw in Hx. injection Hx as Hx. apply str_inj in Hx. lia.
Qed.

(** X6. The script creates one interval variable per task, named [T1] to
    [Tn] in task order, and no two of them share a name: a schedule can give
    every task a start of its own. *)
Theorem task_variables_distinct
    (inst : instance) (prep : prepared) (tasks : list Cpo.interval_var) :
  make_tasks inst prep = Ok tasks ->
  length tasks = Z.to_nat (NB_TASKS inst) /\
  NoDup (Cpo.name <$> tasks) /\
  forall (i j : nat) (v : Cpo.interval_var),
    tasks !! i = Some v -> tasks !! j = Some v -> i = j.
Proof.
  intros Htasks. destruct (make_tasks_Ok _ _ _ Htasks) as [L _].
  pose proof (make_tasks_NoDup _ _ _ Htasks) as Hnd.
  split; [done|]. split; [done|].
  intros i j v Hi Hj. apply NoDup_fmap_1 in Hnd.
  by eapply NoDup_lookup.
Qed.

Lemma task_variables_distinct_witness :
  length small_tasks = Z.to_nat (NB_TASKS small_inst) /\
  NoDup (Cpo.name <$> small_tasks) /\
  forall (i j : nat) (v : Cpo.interval_var),
    small_tasks !! i = Some v -> small_tasks !! j = Some v -> i = j.
Proof.
  apply (task_variables_distinct small_inst small_prep small_tasks). reflexivity.
Defined.

(** ** Further properties of the model builder *)

Lemma range_lookup_inv (n x : Z) (i : nat) :
  range n !! i = Some x -> x = Z.of_nat i /\ Z.of_nat i < n.
Proof. unfold range. intros [-> H]%lookup_seqZ. lia. Qed.

Lemma getitem_Ok_wrap {A} (l : list A) (i : Z) (x : A) :
  getitem l i = Ok x ->
  - len l <= i < len l /\ l !! Z.to_nat (i mod len l) = Some x.
Proof.
  unfold getitem, len. destruct (Z.ltb_spec i 0) as [Hi|Hi].
  - destruct (Z.ltb_spec (i + Z.of_nat (length l)) 0); [discriminate|].
    destruct (l !! _) as [y|] eqn:Hy; [|discriminate]. intros [= ->].
    pose proof (lookup_lt_Some _ _ _ Hy) as Hlt. split; [lia|].
    rewrite <- Hy. f_equal. f_equal.
    rewrite <- (Z.mod_add i 1) by lia. rewrite Z.mod_small; lia.
  - destruct (Z.ltb_spec i 0); [lia|].
    destruct (l !! _) as [y|] eqn:Hy; [|discriminate]. intros [= ->].
    pose proof (lookup_lt_Some _ _ _ Hy) as Hlt. split; [lia|].
    rewrite Z.mod_small by lia. done.
Qed.

Lemma precedences_elem inst prep tasks prec (x : Cpo.expr) :
  precedences inst prep tasks = Ok prec ->
  x ∈ prec <->
  exists (t : nat) succ s a b,
    Z.of_nat t < NB_TASKS inst /\ SUCCESSORS prep !! t = Some succ /\ s ∈ succ /\
    tasks !! t = Some a /\ getitem tasks (s - 1) = Ok b /\
    x = Cpo.end_before_start a b.
Proof.
  intros Hprec. split.
  - unfold precedences in Hprec. apply add_Ok in Hprec.
    apply bind_Ok in Hprec as (per_task & Hper & [= <-]).
    intros Hx. apply list_elem_of_In, in_concat in Hx as (cs & Hcs & Hx).
    apply list_elem_of_In, list_elem_of_lookup in Hcs as (i & Hi).
    destruct (mapM_Ok_lookup_r _ _ _ _ _ Hper Hi) as (t & Ht & Hf).
    apply range_lookup_inv in Ht as [-> Ht].
    apply bind_Ok in Hf as (succ & Hsucc & Hf).
    apply list_elem_of_In, list_elem_of_lookup in Hx as (j & Hj).
    destruct (mapM_Ok_lookup_r _ _ _ _ _ Hf Hj) as (s & Hs & Hg).
    apply bind_Ok in Hg as (a & Ha & Hg). apply bind_Ok in Hg as (b & Hb & [= <-]).
    rewrite getitem_nat in Hsucc. rewrite getitem_nat in Ha.
    destruct (SUCCESSORS prep !! i) as [succ'|] eqn:E1; [|discriminate].
    destruct (tasks !! i) as [a'|] eqn:E2; [|discriminate].
    injection Hsucc as ->. injection Ha as ->.
    exists i, succ, s, a, b. repeat split; try done.
    apply list_elem_of_lookup. eauto.
  - intros (t & succ & s & a & b & Ht & Hsucc & Hs & Ha & Hb & ->).
    apply precedences_Ok in Hprec as [_ Hprec].
    destruct (Hprec t succ s Ht Hsucc Hs) as (a' & b' & Ha' & Hb' & Hin).
    congruence.
Qed.

(** X7. The model holds the precedence constraints of the listed successors
    and no other: [end_before_start(a, b)] is in the model exactly when [a]
    is [tasks[t]] and [b] is [tasks[s-1]] for some task [t] and some [s] of
    [SUCCESSORS[t]]. *)
Theorem precedence_constraints_exact
    (inst : instance) (prep : prepared) (tasks : list Cpo.interval_var)
    (mdl : Cpo.model) (a b : Cpo.interval_var) :
  make_tasks inst prep = Ok tasks ->
  build inst prep = Ok mdl ->
  Cpo.end_before_start a b ∈ mdl <->
  exists (t : nat) succ s,
    Z.of_nat t < NB_TASKS inst /\ SUCCESSORS prep !! t = Some succ /\ s ∈ succ /\
    tasks !! t = Some a /\ getitem tasks (s - 1) = Ok b.
Proof.
  intros Htasks Hbuild.
  destruct (build_Ok _ _ _ Hbuild) as (tasks' & prec & caps & Htasks' & Hprec & Hcaps & ->).
  assert (tasks' = tasks) as -> by congruence.
  rewrite elem_of_app, (precedences_elem _ _ _ _ _ Hprec). split.
  - intros [(t & succ & s & a' & b' & Ht & Hsucc & Hs & Ha & Hb & [= -> ->])|Hin].
    + eauto 10.
    + exfalso. apply elem_of_app in Hin as [Hin|Hin].
      * apply capacities_Ok in Hcaps as [Hcaps _]. rewrite Forall_forall in Hcaps.
        destruct (Hcaps _ Hin) as (f & cap & H). discriminate H.
      * apply objective_elem in Hin as [H|(bound & _ & H)]; discriminate H.
  - intros (t & succ & s & Ht & Hsucc & Hs & Ha & Hb). left. eauto 12.
Qed.

Lemma precedence_constraints_exact_witness :
  Cpo.end_before_start T2 T4 ∈ small_model <->
  exists (t : nat) succ s,
    Z.of_nat t < NB_TASKS small_inst /\ SUCCESSORS small_prep !! t = Some succ /\
    s ∈ succ /\ small_tasks !! t = Some T2 /\ getitem small_tasks (s - 1) = Ok T4.
Proof.
  apply (precedence_constraints_exact small_inst small_prep small_tasks small_model);
    reflexivity.
Defined.

(** X8. A model is only built when every listed successor identifier [s] lies
    between [1 - NB_TASKS] and [NB_TASKS]; the constraint posted for it names
    the task at index [(s - 1) mod NB_TASKS], so 0 is the last task and [-1]
    the one before it. *)
Theorem successor_identifiers_wrap
    (inst : instance) (prep : prepared) (tasks : list Cpo.interval_var)
    (mdl : Cpo.model) (t : nat) (succ : list Z) (s : Z) :
  make_tasks inst prep = Ok tasks ->
  build inst prep = Ok mdl ->
  Z.of_nat t < NB_TASKS inst ->
  SUCCESSORS prep !! t = Some succ -> s ∈ succ ->
  1 - NB_TASKS inst <= s <= NB_TASKS inst /\
  exists a b,
    tasks !! t = Some a /\
    tasks !! Z.to_nat ((s - 1) mod NB_TASKS inst) = Some b /\
    Cpo.end_before_start a b ∈ mdl.
Proof.
  intros Htasks Hbuild Ht Hsucc Hs.
  destruct (precedence_in_model _ _ _ _ _ _ _ Htasks Hbuild Ht Hsucc Hs)
    as (a & b & Ha & Hb & Hin).
  destruct (make_tasks_Ok _ _ _ Htasks) as [L _].
  apply getitem_Ok_wrap in Hb as [Hrange Hb]. unfold len in *.
  rewrite L in Hrange, Hb. rewrite Z2Nat.id in Hrange, Hb by lia.
  split; [lia|]. eauto.
Qed.

Lemma successor_identifiers_wrap_witness :
  1 - NB_TASKS small_inst <= 3 <= NB_TASKS small_inst /\
  exists a b,
    small_tasks !! 0%nat = Some a /\
    small_tasks !! Z.to_nat ((3 - 1) mod NB_TASKS small_inst) = Some b /\
    Cpo.end_before_start a b ∈ small_model.
Proof.
  apply (successor_identifiers_wrap small_inst small_prep small_tasks small_model
           0 [2; 3] 3); [reflexivity | reflexivity | simpl; lia | reflexivity | ].
  right. left.
Defined.

Lemma pulses_elem prep tasks (r : nat) (n : Z) ps (v : Cpo.interval_var) (h : Z) :
  pulses prep tasks (Z.of_nat r) (range n) = Ok ps ->
  Cpo.pulse v h ∈ ps <->
  exists (t : nat) row,
    Z.of_nat t < n /\ tasks !! t = Some v /\
    DEMANDS prep !! t = Some row /\ row !! r = Some h /\ 0 < h.
Proof.
  rewrite range_fmap.
  assert (Hseq : forall t : nat, t ∈ seq 0 (Z.to_nat n) <-> Z.of_nat t < n).
  { intros t. rewrite elem_of_seq. lia. }
  revert Hseq. generalize (seq 0 (Z.to_nat n)) as rng. intros rng Hseq.
  assert (Hgen : pulses prep tasks (Z.of_nat r) (Z.of_nat <$> rng) = Ok ps ->
            Cpo.pulse v h ∈ ps <->
            exists (t : nat) row,
              t ∈ rng /\ tasks !! t = Some v /\
              DEMANDS prep !! t = Some row /\ row !! r = Some h /\ 0 < h).
  { clear Hseq. revert ps. induction rng as [|t rng IH]; intros ps; simpl.
    - intros [= <-]. split; [by intros ?%elem_of_nil|].
      intros (t & row & Ht%elem_of_nil & _). done.
    - rewrite !getitem_nat.
      destruct (DEMANDS prep !! t) as [row|] eqn:Hrow; simpl; [|discriminate].
      rewrite !getitem_nat.
      destruct (row !! r) as [d|] eqn:Hd; simpl; [|discriminate].
      destruct (Z.ltb_spec 0 d) as [Hpos|Hpos].
      + destruct (tasks !! t) as [w|] eqn:Hw; simpl; [|discriminate].
        intros H. apply bind_Ok in H as (ps' & Hps' & [= <-]).
        rewrite elem_of_cons, (IH _ Hps'). split.
        * intros [[= -> ->]|(t' & row' & Ht' & H')].
          -- exists t, row. rewrite elem_of_cons. auto.
          -- exists t', row'. rewrite elem_of_cons. auto.
        * intros (t' & row' & [->|Ht']%elem_of_cons & Hv & Hrow' & Hh & Hlt).
          -- left. congruence.
          -- right. eauto 10.
      + intros H. rewrite (IH _ H). split.
        * intros (t' & row' & Ht' & H'). exists t', row'. rewrite elem_of_cons. auto.
        * intros (t' & row' & [->|Ht']%elem_of_cons & Hv & Hrow' & Hh & Hlt).
          -- exfalso. rewrite Hrow in Hrow'. injection Hrow' as <-.
             rewrite Hd in Hh. injection Hh as <-. lia.
          -- eauto 10. }
  intros H. rewrite (Hgen H). split.
  - intros (t & row & Ht & H'). exists t, row. by rewrite <- Hseq.
  - intros (t & row & Ht & H'). exists t, row. by rewrite Hseq.
Qed.

Lemma precedences_length inst prep tasks prec :
  precedences inst prep tasks = Ok prec ->
  length prec = listed_successors inst prep.
Proof.
  unfold precedences, listed_successors. intros H. apply add_Ok in H.
  apply bind_Ok in H as (per_task & Hper & [= <-]).
  assert (HF : Forall2 (fun succ cs => length cs = length succ)
                 (take (Z.to_nat (NB_TASKS inst)) (SUCCESSORS prep)) per_task).
  { pose proof (mapM_Ok_length _ _ _ Hper) as L. rewrite range_length in L.
    assert (Hi : forall i : nat, (i < Z.to_nat (NB_TASKS inst))%nat ->
              exists succ cs, SUCCESSORS prep !! i = Some succ /\
                              per_task !! i = Some cs /\ length cs = length succ).
    { intros i Hi.
      destruct (mapM_Ok_lookup _ _ _ _ _ Hper (range_lookup (NB_TASKS inst) i ltac:(lia)))
        as (cs & Hcs & Hf).
      apply bind_Ok in Hf as (succ & Hsucc & Hf). rewrite getitem_nat in Hsucc.
      destruct (SUCCESSORS prep !! i) as [succ'|]; [|discriminate].
      injection Hsucc as ->. apply mapM_Ok_length in Hf. eauto. }
    apply Forall2_same_length_lookup_2.
    - rewrite length_take, L.
      destruct (Z.to_nat (NB_TASKS inst)) as [|k] eqn:Ek; [done|].
      destruct (Hi k ltac:(lia)) as (succ & _ & Hsucc%lookup_lt_Some & _). lia.
    - intros i succ cs Hsucc Hcs.
      apply lookup_take_Some in Hsucc as [Hsucc Hlt].
      destruct (Hi i Hlt) as (succ' & cs' & ? & ? & ?). congruence. }
  clear Hper. revert HF. generalize (take (Z.to_nat (NB_TASKS inst)) (SUCCESSORS prep)).
  intros l HF. induction HF as [|succ cs l k Hlen _ IH]; simpl; [done|].
  rewrite length_app. lia.
Qed.

(** X9. The capacity constraint of resource [r] follows the precedence
    constraints at position [r]; a task contributes a pulse to it exactly when
    its demand on [r] is positive, and then with that demand as height: a zero
    or negative demand is left out without an error. *)
Theorem pulses_of_positive_demands
    (inst : instance) (prep : prepared) (tasks : list Cpo.interval_var)
    (mdl : Cpo.model) (r : nat) :
  make_tasks inst prep = Ok tasks ->
  build inst prep = Ok mdl ->
  Z.of_nat r < NB_RESOURCES inst ->
  exists ps cap,
    mdl !! (listed_successors inst prep + r)%nat = Some (Cpo.le (Cpo.sum ps) cap) /\
    CAPACITIES inst !! r = Some cap /\
    forall v h,
      Cpo.pulse v h ∈ ps <->
      exists (t : nat) row,
        Z.of_nat t < NB_TASKS inst /\ tasks !! t = Some v /\
        DEMANDS prep !! t = Some row /\ row !! r = Some h /\ 0 < h.
Proof.
  intros Htasks Hbuild Hr.
  destruct (build_Ok _ _ _ Hbuild) as (tasks' & prec & caps & Htasks' & Hprec & Hcaps & ->).
  assert (tasks' = tasks) as -> by congruence.
  destruct (capacities_Ok _ _ _ _ Hcaps) as [_ Hcaps'].
  destruct (Hcaps' r Hr) as (ps & cap & Hps & Hcap & Hc).
  exists ps, cap. split; [|split; [done|]].
  - rewrite <- (precedences_length _ _ _ _ Hprec). unfold Cpo.model.
    rewrite lookup_app_r by lia. replace (length prec + r - length prec)%nat with r by lia.
    rewrite lookup_app_l; [done|]. by eapply lookup_lt_Some.
  - intros v h. by apply pulses_elem.
Qed.

Lemma pulses_of_positive_demands_witness :
  exists ps cap,
    small_model !! (listed_successors small_inst small_prep + 1)%nat
    = Some (Cpo.le (Cpo.sum ps) cap) /\
    CAPACITIES small_inst !! 1%nat = Some cap /\
    forall v h,
      Cpo.pulse v h ∈ ps <->
      exists (t : nat) row,
        Z.of_nat t < NB_TASKS small_inst /\ small_tasks !! t = Some v /\
        DEMANDS small_prep !! t = Some row /\ row !! 1%nat = Some h /\ 0 < h.
Proof.
  apply (pulses_of_positive_demands small_inst small_prep small_tasks small_model 1);
    [reflexivity | reflexivity | simpl; lia].
Defined.

(** X10. The model lists the precedence constraints first, one per listed
    successor, then one capacity constraint per resource in resource order,
    then the objective and, with a bound, the equality as its last entry. *)
Theorem model_layout
    (inst : instance) (prep : prepared) (tasks : list Cpo.interval_var)
    (mdl : Cpo.model) :
  make_tasks inst prep = Ok tasks ->
  build inst prep = Ok mdl ->
  let P := listed_successors inst prep in
  let R := Z.to_nat (NB_RESOURCES inst) in
  length mdl = (P + R + match OPTIMAL_BOUND inst with Some _ => 2 | None => 1 end)%nat /\
  (forall i x, (i < P)%nat -> mdl !! i = Some x ->
               exists a b, x = Cpo.end_before_start a b) /\
  (forall i x, (P <= i < P + R)%nat -> mdl !! i = Some x ->
               exists f cap, x = Cpo.le f cap /\
                             CAPACITIES inst !! (i - P)%nat = Some cap) /\
  mdl !! (P + R)%nat = Some (Cpo.minimize (makespan tasks)) /\
  mdl !! (P + R + 1)%nat = Cpo.eq (makespan tasks) <$> OPTIMAL_BOUND inst.
Proof.
  intros Htasks Hbuild P R.
  destruct (build_Ok _ _ _ Hbuild) as (tasks' & prec & caps & Htasks' & Hprec & Hcaps & ->).
  assert (tasks' = tasks) as -> by congruence.
  pose proof (precedences_length _ _ _ _ Hprec) as LP. fold P in LP.
  pose proof Hcaps as LC. unfold capacities in LC. apply add_Ok, mapM_Ok_length in LC.
  rewrite range_length in LC. fold R in LC.
  destruct (precedences_Ok _ _ _ _ Hprec) as [Hshape _].
  destruct (capacities_Ok _ _ _ _ Hcaps) as [_ Hcaps'].
  rewrite Forall_forall in Hshape. unfold Cpo.model.
  repeat split.
  - rewrite !length_app, LP, LC. unfold objective.
    destruct (OPTIMAL_BOUND inst); simpl; lia.
  - intros i x Hi Hx. rewrite lookup_app_l in Hx by lia.
    apply Hshape. apply list_elem_of_lookup. eauto.
  - intros i x Hi Hx. rewrite lookup_app_r in Hx by lia.
    rewrite lookup_app_l in Hx by lia. rewrite LP in Hx.
    destruct (Hcaps' (i - P)%nat ltac:(lia)) as (ps & cap & _ & Hcap & Hc).
    rewrite Hc in Hx. injection Hx as <-. eauto.
  - rewrite lookup_app_r by lia. rewrite lookup_app_r by lia.
    replace (P + R - length prec - length caps)%nat with 0%nat by lia. done.
  - rewrite lookup_app_r by lia. rewrite lookup_app_r by lia.
    replace (P + R + 1 - length prec - length caps)%nat with 1%nat by lia.
    unfold objective. by destruct (OPTIMAL_BOUND inst).
Qed.

Lemma model_layout_witness :
  let P := listed_successors small_inst small_prep in
  let R := Z.to_nat (NB_RESOURCES small_inst) in
  length small_model = (P + R + match OPTIMAL_BOUND small_inst with Some _ => 2 | None => 1 end)%nat /\
  (forall i x, (i < P)%nat -> small_model !! i = Some x ->
               exists a b, x = Cpo.end_before_start a b) /\
  (forall i x, (P <= i < P + R)%nat -> small_model !! i = Some x ->
               exists f cap, x = Cpo.le f cap /\
                             CAPACITIES small_inst !! (i - P)%nat = Some cap) /\
  small_model !! (P + R)%nat = Some (Cpo.minimize (makespan small_tasks)) /\
  small_model !! (P + R + 1)%nat
  = Cpo.eq (makespan small_tasks) <$> OPTIMAL_BOUND small_inst.
Proof.
  apply (model_layout small_inst small_prep small_tasks small_model); reflexivity.
Defined.

Lemma build_well_formed (inst : instance) (prep : prepared) (mdl : Cpo.model) :
  build inst prep = Ok mdl -> well_formed inst prep.
Proof.
  intros Hbuild.
  destruct (build_Ok _ _ _ Hbuild) as (tasks & prec & caps & Htasks & Hprec & Hcaps & ->).
  destruct (make_tasks_Ok _ _ _ Htasks) as [L Hdur].
  destruct (capacities_Ok _ _ _ _ Hcaps) as [_ Hcaps'].
  split.
  + intros t Ht.
    destruct (lookup_lt_is_Some_2 tasks t ltac:(lia)) as [v Hv].
    destruct (Hdur _ _ Hv) as [Hd _]. split; [eauto|]. split.
    * unfold precedences in Hprec. apply add_Ok in Hprec.
      apply bind_Ok in Hprec as (per_task & Hper & _).
      destruct (mapM_Ok_lookup _ _ _ _ _ Hper (range_lookup _ _ Ht))
        as (cs & _ & Hf).
      apply bind_Ok in Hf as (succ & Hsucc & Hf). rewrite getitem_nat in Hsucc.
      destruct (SUCCESSORS prep !! t) as [succ'|]; [|discriminate].
      injection Hsucc as ->. exists succ. split; [done|].
      intros s (j & Hj)%list_elem_of_lookup.
      destruct (mapM_Ok_lookup _ _ _ _ _ Hf Hj) as (c & _ & Hg).
      apply bind_Ok in Hg as (a & _ & Hg). apply bind_Ok in Hg as (b & Hb & _).
      apply getitem_Ok_wrap in Hb as [Hb _]. unfold len in Hb. lia.
    * intros r Hr. by eapply build_needs_full_demands.
  + intros r Hr. destruct (Hcaps' r Hr) as (ps & cap & _ & Hcap & _). eauto.
Qed.

Lemma build_has_task (inst : instance) (prep : prepared) (mdl : Cpo.model) :
  build inst prep = Ok mdl -> 1 <= NB_TASKS inst.
Proof.
  unfold build. intros H. apply bind_Ok in H as (tasks & Htasks & H).
  apply bind_Ok in H as (prec & _ & H). apply bind_Ok in H as (caps & _ & H).
  destruct (make_tasks_Ok _ _ _ Htasks) as [L _].
  destruct tasks as [|v tasks]; [discriminate H|]. simpl in L. lia.
Qed.

(** X12. A file that was read, with a resource count that is not negative,
    reaches the call of the engine only if it announces at least one task,
    every task line has at least [NB_RESOURCES + 1] values, the values from
    position [NB_RESOURCES + 2] on lie between [1 - NB_TASKS] and [NB_TASKS],
    and line 2 has at least [NB_RESOURCES] capacities. *)
Theorem file_accepted_only_if
    (file : string) (inst : instance) (mdl : Cpo.model) (kw : Cpo.solve_kwargs) :
  read file = Ok inst ->
  0 <= NB_RESOURCES inst ->
  rcpsp file = Ok (mdl, kw) ->
  1 <= NB_TASKS inst /\
  (forall t row, TASKS inst !! t = Some row ->
     NB_RESOURCES inst + 1 <= len row /\
     forall (j : nat) s,
       row !! (Z.to_nat (NB_RESOURCES inst + 2) + j)%nat = Some s ->
       1 - NB_TASKS inst <= s <= NB_TASKS inst) /\
  NB_RESOURCES inst <= len (CAPACITIES inst).
Proof.
  intros Hread Hm H.
  destruct (read_Ok _ _ Hread) as (_ & _ & _ & Hlen & Hrows).
  unfold rcpsp in H. rewrite Hread in H. simpl in H. unfold len.
  apply bind_Ok in H as (prep & Hprep & H).
  apply bind_Ok in H as (mdl' & Hbuild & _).
  destruct (prepare_Ok _ _ Hprep) as (_ & _ & _ & Hp).
  destruct (build_well_formed _ _ _ Hbuild) as [Htask Hcap].
  split; [by eapply build_has_task|]. split.
  - intros t row Hrow.
    assert (Ht : Z.of_nat t < NB_TASKS inst) by (apply lookup_lt_Some in Hrow; lia).
    destruct (Hp t Ht) as (row' & d & Hrow' & Hd & _ & Hdem & Hsuc).
    assert (row' = row) as -> by congruence.
    rewrite slice_nonneg in Hdem by lia. rewrite slice_from_nonneg in Hsuc by lia.
    destruct (Htask t Ht) as (_ & (succ & Hsucc & Hrange) & Hdems). split.
    + apply lookup_lt_Some in Hd.
      destruct (Z.to_nat (NB_RESOURCES inst)) as [|k] eqn:Ek; [lia|].
      destruct (Hdems k ltac:(lia)) as (dem & x & Hdem' & Hx).
      rewrite Hdem in Hdem'. injection Hdem' as <-.
      apply lookup_lt_Some in Hx. rewrite length_take, length_drop in Hx. lia.
    + intros j s Hs. apply Hrange. rewrite Hsuc in Hsucc. injection Hsucc as <-.
      apply list_elem_of_lookup. exists j. by rewrite lookup_drop.
  - destruct (Z.to_nat (NB_RESOURCES inst)) as [|k] eqn:Ek; [lia|].
    destruct (Hcap k ltac:(lia)) as [cap Hc%lookup_lt_Some]. lia.
Qed.

Lemma file_accepted_only_if_witness :
  1 <= NB_TASKS small_inst /\
  (forall t row, TASKS small_inst !! t = Some row ->
     NB_RESOURCES small_inst + 1 <= len row /\
     forall (j : nat) s,
       row !! (Z.to_nat (NB_RESOURCES small_inst + 2) + j)%nat = Some s ->
       1 - NB_TASKS small_inst <= s <= NB_TASKS small_inst) /\
  NB_RESOURCES small_inst <= len (CAPACITIES small_inst).
Proof.
  apply (file_accepted_only_if small_file small_inst small_model solve_call);
    [reflexivity | simpl; lia | reflexivity].
Defined.

(** A file that announces no task is read, and stops on line 85. *)
Example no_task_run : rcpsp ("0 0" +:+ nl +:+ nl) = Raise ValueError.
Proof. reflexivity. Qed.

(** ** Further properties of the schedules a model admits *)

Lemma capacities_elem inst prep tasks caps (x : Cpo.expr) :
  capacities inst prep tasks = Ok caps ->
  x ∈ caps <->
  exists (r : nat) ps cap,
    Z.of_nat r < NB_RESOURCES inst /\
    pulses prep tasks (Z.of_nat r) (range (NB_TASKS inst)) = Ok ps /\
    CAPACITIES inst !! r = Some cap /\ x = Cpo.le (Cpo.sum ps) cap.
Proof.
  intros Hcaps. destruct (capacities_Ok _ _ _ _ Hcaps) as [_ H]. split.
  - intros (i & Hi)%list_elem_of_lookup.
    pose proof Hcaps as L. unfold capacities in L. apply add_Ok, mapM_Ok_length in L.
    rewrite range_length in L.
    assert (Hr : Z.of_nat i < NB_RESOURCES inst) by (apply lookup_lt_Some in Hi; lia).
    destruct (H i Hr) as (ps & cap & Hps & Hcap & Hc).
    exists i, ps, cap. repeat split; try done. congruence.
  - intros (r & ps & cap & Hr & Hps & Hcap & ->).
    destruct (H r Hr) as (ps' & cap' & Hps' & Hcap' & Hc).
    apply list_elem_of_lookup. exists r. congruence.
Qed.

Lemma pulse_load_nonneg sigma tasks demands r u t :
  0 <= pulse_load sigma tasks demands r u t.
Proof.
  unfold pulse_load. destruct (tasks !! t); [|lia]. destruct (Cpo.active _ _ _); lia.
Qed.

Lemma pulse_load_eq_task_load sigma tasks demands r u t :
  (forall row d, demands !! t = Some row -> row !! r = Some d -> 0 <= d) ->
  pulse_load sigma tasks demands r u t = task_load sigma tasks demands r u t.
Proof.
  intros Hnonneg. unfold pulse_load, task_load. destruct (tasks !! t); [|done].
  destruct (Cpo.active _ _ _); [|done].
  destruct (demands !! t) as [row|] eqn:Hrow; simpl; [|done].
  destruct (row !! r) as [d|] eqn:Hd; simpl; [|done].
  specialize (Hnonneg _ _ eq_refl Hd). lia.
Qed.

Lemma foldr_add_ge_elem {A} (f : A -> Z) (l : list A) (x : A) :
  (forall y, 0 <= f y) -> x ∈ l -> f x <= foldr (fun y acc => f y + acc) 0 l.
Proof.
  intros Hf. induction l as [|y l IH]; simpl; [by intros ?%elem_of_nil|].
  assert (0 <= foldr (fun y acc => f y + acc) 0 l).
  { clear IH. induction l as [|z l IH]; simpl; [lia|]. specialize (Hf z). lia. }
  intros [->|Hx]%elem_of_cons; [lia|]. specialize (IH Hx). specialize (Hf y). lia.
Qed.

Lemma foldr_add_ge_two {A} (f : A -> Z) (l : list A) (x y : A) :
  (forall z, 0 <= f z) -> NoDup l -> x ∈ l -> y ∈ l -> x <> y ->
  f x + f y <= foldr (fun z acc => f z + acc) 0 l.
Proof.
  intros Hf. induction l as [|z l IH]; simpl; [by intros _ ?%elem_of_nil|].
  intros [Hz Hnd]%NoDup_cons [->|Hx]%elem_of_cons [->|Hy]%elem_of_cons Hne.
  - done.
  - pose proof (foldr_add_ge_elem f l y Hf Hy). lia.
  - pose proof (foldr_add_ge_elem f l x Hf Hx). lia.
  - specialize (IH Hnd Hx Hy Hne). specialize (Hf z). lia.
Qed.

(** X13. For demands that are not negative, a schedule satisfies the model
    exactly when it is a valid schedule: every listed successor starts no
    earlier than its predecessor ends, at every time unit the demands of the
    active tasks stay within every capacity, and, with a bound, the makespan
    is the bound. *)
Theorem admitted_iff_valid
    (inst : instance) (prep : prepared) (tasks : list Cpo.interval_var)
    (mdl : Cpo.model) :
  make_tasks inst prep = Ok tasks ->
  build inst prep = Ok mdl ->
  (forall t row r d, DEMANDS prep !! t = Some row -> row !! r = Some d -> 0 <= d) ->
  forall sigma,
    Cpo.admits mdl sigma <->
    (forall (t : nat) succ s a b,
       Z.of_nat t < NB_TASKS inst -> SUCCESSORS prep !! t = Some succ -> s ∈ succ ->
       tasks !! t = Some a -> getitem tasks (s - 1) = Ok b ->
       Cpo.end_time sigma a <= Cpo.start_time sigma b) /\
    (forall (r : nat) cap,
       Z.of_nat r < NB_RESOURCES inst -> CAPACITIES inst !! r = Some cap ->
       forall u, active_demand sigma tasks (DEMANDS prep) r u <= cap) /\
    (forall bound, OPTIMAL_BOUND inst = Some bound ->
                   Cpo.value sigma (makespan tasks) = Some bound).
Proof.
  intros Htasks Hbuild Hnonneg sigma.
  destruct (build_Ok _ _ _ Hbuild) as (tasks' & prec & caps & Htasks' & Hprec & Hcaps & ->).
  assert (tasks' = tasks) as -> by congruence.
  destruct (make_tasks_Ok _ _ _ Htasks) as [L _].
  assert (Hlevel : forall (r : nat) ps u,
            pulses prep tasks (Z.of_nat r) (range (NB_TASKS inst)) = Ok ps ->
            Cpo.level sigma (Cpo.sum ps) u
            = active_demand sigma tasks (DEMANDS prep) r u).
  { intros r ps u Hps. rewrite (level_sum_pulses sigma inst prep tasks r ps u L Hps).
    unfold active_demand. apply foldr_add_ext. intros t _.
    apply pulse_load_eq_task_load. eauto. }
  unfold Cpo.admits. rewrite Forall_forall. split.
  - intros Hadm. repeat split.
    + intros t succ s a b Ht Hsucc Hs Ha Hb.
      apply (Hadm (Cpo.end_before_start a b)). apply elem_of_app. left.
      apply (precedences_elem _ _ _ _ _ Hprec). eauto 12.
    + intros r cap Hr Hcap u.
      destruct (capacities_Ok _ _ _ _ Hcaps) as [_ H].
      destruct (H r Hr) as (ps & cap' & Hps & Hcap' & Hc).
      assert (cap' = cap) as -> by congruence.
      rewrite <- (Hlevel r ps u Hps).
      apply (Hadm (Cpo.le (Cpo.sum ps) cap)). apply elem_of_app. right.
      apply elem_of_app. left. apply list_elem_of_lookup. eauto.
    + intros bound Hbound.
      apply (Hadm (Cpo.eq (makespan tasks) bound)). apply elem_of_app. right.
      apply elem_of_app. right. apply objective_elem. eauto.
  - intros (Hp & Hc & Hb) x Hx.
    apply elem_of_app in Hx as [Hx|Hx]; [|apply elem_of_app in Hx as [Hx|Hx]].
    + apply (precedences_elem _ _ _ _ _ Hprec) in Hx
        as (t & succ & s & a & b & Ht & Hsucc & Hs & Ha & Hgb & ->).
      simpl. eauto.
    + apply (capacities_elem _ _ _ _ _ Hcaps) in Hx
        as (r & ps & cap & Hr & Hps & Hcap & ->).
      intros u. rewrite (Hlevel r ps u Hps). eauto.
    + apply objective_elem in Hx as [->|(bound & Hbound & ->)]; simpl; eauto.
Qed.

Lemma admitted_iff_valid_witness :
  Cpo.admits small_model small_schedule <->
  (forall (t : nat) succ s a b,
     Z.of_nat t < NB_TASKS small_inst -> SUCCESSORS small_prep !! t = Some succ ->
     s ∈ succ -> small_tasks !! t = Some a -> getitem small_tasks (s - 1) = Ok b ->
     Cpo.end_time small_schedule a <= Cpo.start_time small_schedule b) /\
  (forall (r : nat) cap,
     Z.of_nat r < NB_RESOURCES small_inst -> CAPACITIES small_inst !! r = Some cap ->
     forall u, active_demand small_schedule small_tasks (DEMANDS small_prep) r u <= cap) /\
  (forall bound, OPTIMAL_BOUND small_inst = Some bound ->
                 Cpo.value small_schedule (makespan small_tasks) = Some bound).
Proof.
  apply (admitted_iff_valid small_inst small_prep small_tasks small_model);
    [reflexivity | reflexivity | ].
  intros t row r d Hrow Hd.
  assert (Hin : d ∈ row) by (apply list_elem_of_lookup; eauto).
  do 4 (destruct t as [|t]; [injection Hrow as <-;
    repeat (apply elem_of_cons in Hin as [->|Hin]; [lia|]);
    by apply elem_of_nil in Hin|]).
  discriminate Hrow.
Defined.

Lemma capacity_holds_at
    (inst : instance) (prep : prepared) (tasks : list Cpo.interval_var)
    (mdl : Cpo.model) (sigma : Cpo.schedule) (r : nat) (cap u : Z) :
  make_tasks inst prep = Ok tasks ->
  build inst prep = Ok mdl ->
  Cpo.admits mdl sigma ->
  Z.of_nat r < NB_RESOURCES inst -> CAPACITIES inst !! r = Some cap ->
  foldr (fun t acc => pulse_load sigma tasks (DEMANDS prep) r u t + acc) 0
        (seq 0 (length tasks)) <= cap.
Proof.
  intros Htasks Hbuild Hadm Hr Hcap.
  destruct (build_Ok _ _ _ Hbuild) as (tasks' & prec & caps & Htasks' & _ & Hcaps & ->).
  assert (tasks' = tasks) as -> by congruence.
  destruct (make_tasks_Ok _ _ _ Htasks) as [L _].
  destruct (capacities_Ok _ _ _ _ Hcaps) as [_ H].
  destruct (H r Hr) as (ps & cap' & Hps & Hcap' & Hc).
  assert (cap' = cap) as -> by congruence.
  rewrite <- (level_sum_pulses sigma inst prep tasks r ps u L Hps).
  apply (admits_elem _ _ (Cpo.le (Cpo.sum ps) cap) Hadm).
  apply elem_of_app. right. apply elem_of_app. left.
  apply list_elem_of_lookup. eauto.
Qed.

Lemma pulse_load_active sigma tasks demands r u t v row d :
  tasks !! t = Some v -> demands !! t = Some row -> row !! r = Some d ->
  Cpo.active sigma v u = true ->
  pulse_load sigma tasks demands r u t = Z.max 0 d.
Proof.
  intros Hv Hrow Hd Hact. unfold pulse_load. rewrite Hv, Hact, Hrow. simpl.
  by rewrite Hd.
Qed.



(** X15. Two tasks whose demands on some resource add up to more than its
    capacity are never active at the same time unit in a schedule the model
    admits; when both take time, one ends before the other starts. *)
Theorem overloading_pair_serialized
    (inst : instance) (prep : prepared) (tasks : list Cpo.interval_var)
    (mdl : Cpo.model) (t1 t2 r : nat) (v1 v2 : Cpo.interval_var)
    (row1 row2 : list Z) (d1 d2 cap : Z) :
  make_tasks inst prep = Ok tasks ->
  build inst prep = Ok mdl ->
  t1 <> t2 -> tasks !! t1 = Some v1 -> tasks !! t2 = Some v2 ->
  Z.of_nat r < NB_RESOURCES inst ->
  DEMANDS prep !! t1 = Some row1 -> row1 !! r = Some d1 ->
  DEMANDS prep !! t2 = Some row2 -> row2 !! r = Some d2 ->
  CAPACITIES inst !! r = Some cap -> cap < d1 + d2 ->
  forall sigma, Cpo.admits mdl sigma ->
    (forall u, Cpo.active sigma v1 u && Cpo.active sigma v2 u = false) /\
    (0 < Cpo.size v1 -> 0 < Cpo.size v2 ->
     Cpo.end_time sigma v1 <= Cpo.start_time sigma v2 \/
     Cpo.end_time sigma v2 <= Cpo.start_time sigma v1).
Proof.
  intros Htasks Hbuild Hne Hv1 Hv2 Hr Hrow1 Hd1 Hrow2 Hd2 Hcap Hlt sigma Hadm.
  assert (Hnever : forall u, Cpo.active sigma v1 u && Cpo.active sigma v2 u = false).
  { intros u.
    destruct (Cpo.active sigma v1 u) eqn:A1, (Cpo.active sigma v2 u) eqn:A2; try done.
    exfalso.
    pose proof (capacity_holds_at _ _ _ _ sigma r cap u Htasks Hbuild Hadm Hr Hcap)
      as Hle.
    pose proof (foldr_add_ge_two
                  (pulse_load sigma tasks (DEMANDS prep) r u)
                  (seq 0 (length tasks)) t1 t2
                  (pulse_load_nonneg _ _ _ _ _) (NoDup_seq _ _)) as Hge.
    rewrite (pulse_load_active _ _ _ _ _ _ v1 row1 d1 Hv1 Hrow1 Hd1 A1) in Hge.
    rewrite (pulse_load_active _ _ _ _ _ _ v2 row2 d2 Hv2 Hrow2 Hd2 A2) in Hge.
    apply lookup_lt_Some in Hv1, Hv2.
    specialize (Hge ltac:(apply elem_of_seq; lia) ltac:(apply elem_of_seq; lia) Hne).
    lia. }
  split; [done|]. intros Hs1 Hs2.
  destruct (Z_le_gt_dec (Cpo.end_time sigma v1) (Cpo.start_time sigma v2)) as [?|G1];
    [by left|].
  destruct (Z_le_gt_dec (Cpo.end_time sigma v2) (Cpo.start_time sigma v1)) as [?|G2];
    [by right|].
  exfalso. specialize (Hnever (Z.max (Cpo.start_time sigma v1) (Cpo.start_time sigma v2))).
  unfold Cpo.active, Cpo.start_time, Cpo.end_time in *.
  apply andb_false_iff in Hnever as [H|H]; apply andb_false_iff in H as [H|H];
    first [apply Z.leb_gt in H | apply Z.ltb_ge in H]; lia.
Qed.

Lemma overloading_pair_serialized_witness :
  (forall u, Cpo.active small_schedule T2 u && Cpo.active small_schedule T3 u = false) /\
  (0 < Cpo.size T2 -> 0 < Cpo.size T3 ->
   Cpo.end_time small_schedule T2 <= Cpo.start_time small_schedule T3 \/
   Cpo.end_time small_schedule T3 <= Cpo.start_time small_schedule T2).
Proof.
  apply (overloading_pair_serialized small_inst small_prep small_tasks small_model
           1 2 0 T2 T3 [2; 1] [2; 0] 2 2 3);
    first [reflexivity | discriminate | simpl; lia | apply small_schedule_admitted].
Defined.

(** X16. With a bound, the durations along any chain of successors, the last
    task included, fit below the bound in every admitted schedule that starts
    the first task of the chain at time 0 or later: a bound below the length
    of a chain admits no such schedule. *)
Theorem bound_covers_every_chain
    (inst : instance) (prep : prepared) (tasks : list Cpo.interval_var)
    (mdl : Cpo.model) (bound : Z) (t last : nat) (path : list nat)
    (a : Cpo.interval_var) (sigma : Cpo.schedule) :
  make_tasks inst prep = Ok tasks ->
  build inst prep = Ok mdl ->
  OPTIMAL_BOUND inst = Some bound ->
  tasks !! t = Some a -> walk prep t path last ->
  Cpo.admits mdl sigma -> 0 <= Cpo.start_time sigma a ->
  walk_duration prep t path + duration prep last <= bound.
Proof.
  intros Htasks Hbuild Hbound Ha Hwalk Hadm Hstart.
  destruct (walk_start_times _ _ _ _ _ Htasks Hbuild Hadm _ _ _ _ Ha Hwalk)
    as (b & Hb & Hle).
  destruct (make_tasks_Ok _ _ _ Htasks) as [_ Hsize].
  destruct (Hsize _ _ Hb) as [Hd _].
  assert (Hin : Cpo.eq (makespan tasks) bound ∈ mdl).
  { eapply objective_in_model; [done..|]. apply objective_elem. eauto. }
  pose proof (admits_elem _ _ _ Hadm Hin) as Hval.
  change (Cpo.value sigma (makespan tasks) = Some bound) in Hval.
  rewrite value_makespan in Hval. apply largest_spec in Hval as [_ Hub].
  assert (Hend : Cpo.end_time sigma b <= bound).
  { apply Hub. apply list_elem_of_fmap. exists b. split; [done|].
    apply list_elem_of_lookup. eauto. }
  unfold duration. rewrite Hd. simpl.
  unfold Cpo.end_time, Cpo.start_time in *. lia.
Qed.

Lemma bound_covers_every_chain_witness :
  walk_duration small_prep 0 [1%nat; 3%nat] + duration small_prep 3 <= 7.
Proof.
  apply (bound_covers_every_chain small_inst small_prep small_tasks small_model 7
           0 3 [1%nat; 3%nat] T1 small_schedule);
    [reflexivity | reflexivity | reflexivity | reflexivity | | | ].
  - simpl. repeat split.
    + exists [2; 3], 2. repeat split; [left | lia].
    + exists [4], 4. repeat split; [left | lia].
  - apply small_schedule_admitted.
  - unfold Cpo.start_time, small_schedule. simpl. lia.
Defined.

Example overloaded_file_run :
  read overloaded_file = Ok overloaded_inst /\
  prepare overloaded_inst = Ok overloaded_prep /\
  rcpsp overloaded_file = Ok (overloaded_model, solve_call).
Proof. repeat split; reflexivity. Qed.

(** *** Running the tasks one after another *)

Lemma serial_at (tasks : list Cpo.interval_var) (i : nat) (v : Cpo.interval_var) :
  NoDup tasks -> tasks !! i = Some v -> serial tasks v = elapsed tasks i.
Proof.
  intros Hnd Hv. unfold serial.
  destruct (list_find_elem_of (fun w => w = v) tasks v) as [[j w] Hfind];
    [apply list_elem_of_lookup; eauto | done |].
  rewrite Hfind. apply list_find_Some in Hfind as (Hw & -> & _).
  by rewrite (NoDup_lookup _ _ _ _ Hnd Hv Hw).
Qed.

Lemma elapsed_S (tasks : list Cpo.interval_var) (i : nat) (v : Cpo.interval_var) :
  tasks !! i = Some v -> elapsed tasks (S i) = elapsed tasks i + Cpo.size v.
Proof.
  intros Hv. unfold elapsed. rewrite (take_S_r _ _ _ Hv), fmap_app, foldr_app. simpl.
  generalize (Cpo.size <$> take i tasks). intros l.
  induction l as [|x l IH]; simpl; lia.
Qed.

Lemma elapsed_mono (tasks : list Cpo.interval_var) (i j : nat) :
  (forall v, v ∈ tasks -> 0 <= Cpo.size v) ->
  (i <= j)%nat -> elapsed tasks i <= elapsed tasks j.
Proof.
  intros Hsize Hij. induction Hij as [|j Hij IH]; [lia|].
  destruct (tasks !! j) as [v|] eqn:Hv.
  - rewrite (elapsed_S _ _ _ Hv).
    specialize (Hsize v ltac:(apply list_elem_of_lookup; eauto)). lia.
  - unfold elapsed in *. apply lookup_ge_None in Hv.
    rewrite (take_ge tasks (S j)) by lia. rewrite (take_ge tasks j) in IH by lia. done.
Qed.

Lemma foldr_add_one_nonzero {A} (g : A -> Z) (l : list A) (cap : Z) :
  0 <= cap -> NoDup l ->
  (forall x, x ∈ l -> 0 <= g x <= cap) ->
  (forall x y, x ∈ l -> y ∈ l -> x <> y -> g x = 0 \/ g y = 0) ->
  foldr (fun x acc => g x + acc) 0 l <= cap.
Proof.
  intros Hcap. induction l as [|x l IH]; simpl; [lia|].
  intros [Hx Hnd]%NoDup_cons Hb Hone.
  assert (IH' : foldr (fun x acc => g x + acc) 0 l <= cap).
  { apply IH; [done| |]; intros; [apply Hb|apply Hone]; try done; by right. }
  destruct (Z.eq_dec (g x) 0) as [E|E]; [lia|].
  assert (Hz : foldr (fun x acc => g x + acc) 0 l = 0).
  { clear IH IH'. induction l as [|y l IHl]; simpl; [done|].
    apply not_elem_of_cons in Hx as [Hxy Hx]. apply NoDup_cons in Hnd as [_ Hnd].
    destruct (Hone x y ltac:(left) ltac:(right; left) Hxy) as [?|Hy]; [done|].
    rewrite Hy. simpl. apply IHl; try done.
    - intros z Hz. apply Hb. apply elem_of_cons in Hz as [->|Hz]; [left|right; by right].
    - intros a b Ha Hb' Hab. apply Hone; try done.
      + apply elem_of_cons in Ha as [->|Ha]; [left|right; by right].
      + apply elem_of_cons in Hb' as [->|Hb']; [left|right; by right]. }
  specialize (Hb x ltac:(left)). lia.
Qed.

(** X17. When no bound is given, no duration is negative, every successor
    identifier names a later task and every task's demand fits the capacities,
    the model admits the schedule that runs the tasks one after another in
    task order; its makespan is the sum of the durations. *)
Theorem serial_schedule_admitted
    (inst : instance) (prep : prepared) (tasks : list Cpo.interval_var)
    (mdl : Cpo.model) :
  make_tasks inst prep = Ok tasks ->
  build inst prep = Ok mdl ->
  OPTIMAL_BOUND inst = None ->
  (forall (t : nat) d, DURATIONS prep !! t = Some d -> 0 <= d) ->
  (forall (t : nat) succ s,
     SUCCESSORS prep !! t = Some succ -> s ∈ succ -> Z.of_nat t + 1 < s) ->
  (forall (r : nat) cap, CAPACITIES inst !! r = Some cap ->
     0 <= cap /\
     forall (t : nat) row d,
       DEMANDS prep !! t = Some row -> row !! r = Some d -> d <= cap) ->
  Cpo.admits mdl (serial tasks) /\
  (tasks <> [] ->
   Cpo.value (serial tasks) (makespan tasks) = Some (elapsed tasks (length tasks))).
Proof.
  intros Htasks Hbuild Hbound Hdur Hfwd Hfit.
  destruct (build_Ok _ _ _ Hbuild) as (tasks' & prec & caps & Htasks' & Hprec & Hcaps & ->).
  assert (tasks' = tasks) as -> by congruence.
  destruct (make_tasks_Ok _ _ _ Htasks) as [L Hsize].
  pose proof (NoDup_fmap_1 _ _ (make_tasks_NoDup _ _ _ Htasks)) as Hnd.
  assert (Hnonneg : forall v, v ∈ tasks -> 0 <= Cpo.size v).
  { intros v (i & Hv)%list_elem_of_lookup. destruct (Hsize _ _ Hv) as [Hd _]. eauto. }
  assert (Hend : forall i v, tasks !! i = Some v ->
            Cpo.end_time (serial tasks) v = elapsed tasks (S i)).
  { intros i v Hv. unfold Cpo.end_time.
    by rewrite (serial_at _ _ _ Hnd Hv), (elapsed_S _ _ _ Hv). }
  split.
  - unfold Cpo.admits. apply Forall_forall. intros x Hx.
    apply elem_of_app in Hx as [Hx|Hx]; [|apply elem_of_app in Hx as [Hx|Hx]].
    + apply (precedences_elem _ _ _ _ _ Hprec) in Hx
        as (t & succ & s & a & b & Ht & Hsucc & Hs & Ha & Hb & ->).
      specialize (Hfwd _ _ _ Hsucc Hs).
      apply getitem_Ok_nonneg in Hb; [|lia]. simpl.
      rewrite (Hend _ _ Ha). unfold Cpo.start_time. rewrite (serial_at _ _ _ Hnd Hb).
      apply elapsed_mono; [done|lia].
    + apply (capacities_elem _ _ _ _ _ Hcaps) in Hx
        as (r & ps & cap & Hr & Hps & Hcap & ->).
      destruct (Hfit _ _ Hcap) as [Hcap0 Hdem].
      intros u. rewrite (level_sum_pulses _ inst prep tasks r ps u L Hps).
      apply foldr_add_one_nonzero; [done|apply NoDup_seq| |].
      * intros t _. split; [apply pulse_load_nonneg|].
        unfold pulse_load. destruct (tasks !! t); [|done].
        destruct (Cpo.active _ _ _); [|done].
        destruct (DEMANDS prep !! t) as [row|] eqn:Hrow; simpl; [|lia].
        destruct (row !! r) as [d|] eqn:Hd; simpl; [|lia].
        specialize (Hdem _ _ _ Hrow Hd). lia.
      * assert (Hlt : forall t t', (t < t')%nat ->
                  pulse_load (serial tasks) tasks (DEMANDS prep) r u t = 0 \/
                  pulse_load (serial tasks) tasks (DEMANDS prep) r u t' = 0).
        { intros t t' Htt'. unfold pulse_load.
          destruct (tasks !! t) as [v|] eqn:Hv; [|by left].
          destruct (tasks !! t') as [v'|] eqn:Hv'; [|by right].
          destruct (Cpo.active (serial tasks) v u) eqn:A; [|by left].
          destruct (Cpo.active (serial tasks) v' u) eqn:A'; [|by right].
          exfalso. unfold Cpo.active in A, A'.
          apply andb_true_iff in A as [_ A%Z.ltb_lt].
          apply andb_true_iff in A' as [A'%Z.leb_le _].
          rewrite (Hend _ _ Hv) in A. unfold Cpo.start_time in A'.
          rewrite (serial_at _ _ _ Hnd Hv') in A'.
          pose proof (elapsed_mono tasks (S t) t' Hnonneg ltac:(lia)). lia. }
        intros t t' _ _ Hne.
        destruct (Nat.lt_ge_cases t t') as [?|?]; [by apply Hlt|].
        destruct (Hlt t' t ltac:(lia)); [by right|by left].
    + unfold objective in Hx. rewrite Hbound in Hx.
      apply list_elem_of_singleton in Hx as ->. exact I.
  - intros Hne. rewrite value_makespan. apply largest_spec. split.
    + assert (Hlast : is_Some (tasks !! (length tasks - 1)%nat)).
      { apply lookup_lt_is_Some_2. destruct tasks; [done|simpl; lia]. }
      destruct Hlast as [v Hv]. apply list_elem_of_fmap. exists v. split.
      * rewrite (Hend _ _ Hv). f_equal. destruct tasks; [done|simpl; lia].
      * apply list_elem_of_lookup. eauto.
    + intros x (v & -> & (i & Hv)%list_elem_of_lookup)%list_elem_of_fmap.
      rewrite (Hend _ _ Hv). apply elapsed_mono; [done|].
      apply lookup_lt_Some in Hv. lia.
Qed.

Lemma serial_schedule_admitted_witness :
  Cpo.admits unbound_model (serial small_tasks) /\
  (small_tasks <> [] ->
   Cpo.value (serial small_tasks) (makespan small_tasks)
   = Some (elapsed small_tasks (length small_tasks))).
Proof.
  apply (serial_schedule_admitted unbound_inst small_prep small_tasks unbound_model);
    [reflexivity | reflexivity | reflexivity | | | ].
  - intros t d H. do 4 (destruct t as [|t]; [injection H as <-; lia|]).
    discriminate H.
  - intros t succ s H Hs.
    do 4 (destruct t as [|t];
          [injection H as <-;
           repeat (apply elem_of_cons in Hs as [->|Hs]; [simpl; lia|]);
           by apply elem_of_nil in Hs|]).
    discriminate H.
  - intros r cap H.
    do 2 (destruct r as [|r];
          [injection H as <-; split; [lia|];
           intros t row d Hrow Hd;
           do 4 (destruct t as [|t]; [injection Hrow as <-; injection Hd as <-; lia|]);
           discriminate Hrow|]).
    discriminate H.
Defined.

Example serial_schedule_makespan :
  Cpo.value (serial small_tasks) (makespan small_tasks) = Some 7.
Proof. reflexivity. Qed.

(** ** Blank task lines and line ends *)

(** X18. Once the file was read, the extraction fails, with [IndexError],
    exactly when one of the task lines read is blank (or missing, which reads
    as blank); when it succeeds, [DURATIONS], [DEMANDS] and [SUCCESSORS] have
    one entry per task line, [NB_TASKS] in all (none for a count below 1). *)
Theorem extraction_fails_iff_blank_line (file : string) (inst : instance) :
  read file = Ok inst ->
  (prepare inst = Raise IndexError <-> exists t : nat, TASKS inst !! t = Some []) /\
  length (TASKS inst) = Z.to_nat (NB_TASKS inst) /\
  forall prep, prepare inst = Ok prep ->
    length (DURATIONS prep) = length (TASKS inst) /\
    length (DEMANDS prep) = length (TASKS inst) /\
    length (SUCCESSORS prep) = length (TASKS inst).
Proof.
  intros Hread. destruct (read_Ok _ _ Hread) as (_ & _ & _ & Hlen & Hrows).
  split; [|split; [done|]].
  - split.
    + intros Hfail.
      destruct (decide (Exists (fun row => row = []) (TASKS inst))) as [Hex|Hnone].
      * apply Exists_exists in Hex as (row & (t & Ht)%list_elem_of_lookup & ->). eauto.
      * exfalso. destruct (prepare_total inst) as [prep Hprep]; [|congruence].
        intros t Ht. destruct (Hrows t Ht) as (row & Hrow & _). exists row.
        split; [done|]. intros ->. apply Hnone, Exists_exists. exists [].
        split; [|done]. apply list_elem_of_lookup. eauto.
    + intros (t & Ht). destruct (prepare inst) as [prep|e] eqn:Hprep.
      * exfalso. destruct (prepare_Ok _ _ Hprep) as (_ & _ & _ & H).
        destruct (H t) as (row & d & Hrow & Hd & _).
        { apply lookup_lt_Some in Ht. lia. }
        rewrite Ht in Hrow. injection Hrow as <-. discriminate Hd.
      * f_equal. by eapply prepare_exn.
  - intros prep Hprep. destruct (prepare_Ok _ _ Hprep) as (L1 & L2 & L3 & _).
    rewrite Hlen. done.
Qed.

Lemma extraction_fails_iff_blank_line_witness :
  (prepare truncated_inst = Raise IndexError <->
   exists t : nat, TASKS truncated_inst !! t = Some []) /\
  length (TASKS truncated_inst) = Z.to_nat (NB_TASKS truncated_inst) /\
  forall prep, prepare truncated_inst = Ok prep ->
    length (DURATIONS prep) = length (TASKS truncated_inst) /\
    length (DEMANDS prep) = length (TASKS truncated_inst) /\
    length (SUCCESSORS prep) = length (TASKS truncated_inst).
Proof.
  apply (extraction_fails_iff_blank_line truncated_file truncated_inst). reflexivity.
Defined.

Lemma readline_crlf (s : string) :
  no_cr s = true ->
  Py.readline (crlf s) = (fst (Py.readline s), crlf (snd (Py.readline s))) /\
  no_cr (snd (Py.readline s)) = true.
Proof.
  induction s as [|c s IH]; simpl; [done|].
  intros [Hc Hs]%andb_true_iff. apply negb_true_iff in Hc.
  destruct (Ascii.eqb c "010"%char) eqn:Hlf.
  - simpl. done.
  - simpl. rewrite Hlf, Hc. destruct (IH Hs) as [-> Hrest].
    destruct (Py.readline s) as [l r]. simpl in *. done.
Qed.

Lemma read_tasks_crlf (rng : list Z) (file : string) :
  no_cr file = true -> read_tasks rng (crlf file) = read_tasks rng file.
Proof.
  revert file. induction rng as [|i rng IH]; intros file Hcr; simpl; [done|].
  destruct (readline_crlf file Hcr) as [-> Hrest].
  destruct (Py.readline file) as [l r]. simpl in *. by rewrite IH.
Qed.

(** X19. A file that holds no carriage return reads, and runs, the same after
    every line feed is replaced by carriage return and line feed. *)
Theorem crlf_read_alike (file : string) :
  no_cr file = true ->
  read (crlf file) = read file /\ rcpsp (crlf file) = rcpsp file.
Proof.
  intros Hcr.
  assert (Hread : read (crlf file) = read file).
  { unfold read. destruct (readline_crlf file Hcr) as [-> Hcr1].
    destruct (Py.readline file) as [l1 f1]. simpl in *.
    destruct (readline_crlf f1 Hcr1) as [-> Hcr2].
    destruct (Py.readline f1) as [l2 f2]. simpl in *.
    destruct (getitem (Py.split l1) 0) as [a|]; simpl; [|done].
    destruct (Py.int a) as [n|]; simpl; [|done].
    destruct (getitem (Py.split l1) 1) as [b|]; simpl; [|done].
    destruct (Py.int b) as [m|]; simpl; [|done].
    destruct (if 2 <? len (Py.split l1) then _ else _) as [ob|]; simpl; [|done].
    destruct (ints (Py.split l2)) as [caps|]; simpl; [|done].
    by rewrite read_tasks_crlf. }
  split; [done|]. unfold rcpsp. by rewrite Hread.
Qed.

Lemma crlf_read_alike_witness :
  read (crlf small_file) = read small_file /\
  rcpsp (crlf small_file) = rcpsp small_file.
Proof. apply (crlf_read_alike small_file). reflexivity. Defined.
